(** * wafb: address expansion, probing and reporting

    A shallow embedding of [main.go] of luastan/wafb.

    Conventions.
    - Go [string]s are [string]s of bytes; a [uint32] is a [Z] in
      [0, 2^32) with its wrap-around written out; a [[]byte] is a [list Z].
    - A Go function that may panic or loop returns an [outcome]; loops
      take fuel and return [OutOfFuel] when it runs out.
    - [ErrorLogger] output is a list of messages (the "ERROR: " prefix and
      the timestamp are left out); standard output is a list of lines.
    - Functions of the Go standard library are modelled in [Module Go],
      from their documented behaviour. *)

From Stdlib Require Import ZArith Lia List Ascii String QArith.
From stdpp Require Import base list strings gmap.

Local Open Scope Z_scope.

(** ** Outcomes of Go computations *)

Inductive outcome (A : Type) : Type :=
  | Returns (a : A)
  | Panics (msg : string)
  | OutOfFuel.
Arguments Returns {A} a.
Arguments Panics {A} msg.
Arguments OutOfFuel {A}.

Definition obind {A B} (m : outcome A) (k : A -> outcome B) : outcome B :=
  match m with
  | Returns a => k a
  | Panics msg => Panics msg
  | OutOfFuel => OutOfFuel
  end.

#[global] Instance outcome_ret : MRet outcome := fun A a => Returns a.
#[global] Instance outcome_bind : MBind outcome := fun A B k m => obind m k.

(** ** The Go standard library, as far as [main.go] calls it *)

Module Go.

(** A byte of a string as an integer. *)
Definition byteZ (c : ascii) : Z := Z.of_N (N_of_ascii c).

Definition quote : string := String (ascii_of_nat 34) EmptyString.
Definition newline : ascii := ascii_of_nat 10.

(** [strings.Contains(s, sep)] for a one-byte [sep] (every call site of
    [main.go] passes ["/"] or ["-"]). *)
Fixpoint Contains (s : string) (sep : ascii) : bool :=
  match s with
  | EmptyString => false
  | String c s' => if Ascii.eqb c sep then true else Contains s' sep
  end.

(** [strings.Split(s, sep)] for a one-byte [sep]: the fields between the
    occurrences of [sep]; one more field than there are occurrences. *)
Fixpoint Split (s : string) (sep : ascii) : list string :=
  match s with
  | EmptyString => [EmptyString]
  | String c s' =>
      if Ascii.eqb c sep then EmptyString :: Split s' sep
      else match Split s' sep with
           | f :: fs => String c f :: fs
           | [] => [String c EmptyString]
           end
  end.

(** [unicode.IsSpace] on the UTF-8 encoding of a rune: the six ASCII
    spaces, U+0085 and U+00A0 (two bytes), and U+1680, U+2000..U+200A,
    U+2028, U+2029, U+202F, U+205F, U+3000 (three bytes). *)
Definition asciiSpace (c : ascii) : bool :=
  let b := byteZ c in
  (b =? 9) || (b =? 10) || (b =? 11) || (b =? 12) || (b =? 13) || (b =? 32).

Definition space2 (c1 c2 : ascii) : bool :=
  (byteZ c1 =? 194) && ((byteZ c2 =? 133) || (byteZ c2 =? 160)).

Definition space3 (c1 c2 c3 : ascii) : bool :=
  let b1 := byteZ c1 in let b2 := byteZ c2 in let b3 := byteZ c3 in
  ((b1 =? 225) && (b2 =? 154) && (b3 =? 128))
  || ((b1 =? 226) && (b2 =? 128) &&
        (((128 <=? b3) && (b3 <=? 138)) || (b3 =? 168) || (b3 =? 169) || (b3 =? 175)))
  || ((b1 =? 226) && (b2 =? 129) && (b3 =? 159))
  || ((b1 =? 227) && (b2 =? 128) && (b3 =? 128)).

(** Leading white space removed, rune by rune. *)
Fixpoint trimLeft (s : list ascii) : list ascii :=
  match s with
  | [] => []
  | c1 :: s1 =>
      if asciiSpace c1 then trimLeft s1 else
      match s1 with
      | [] => s
      | c2 :: s2 =>
          if space2 c1 c2 then trimLeft s2 else
          match s2 with
          | [] => s
          | c3 :: s3 => if space3 c1 c2 c3 then trimLeft s3 else s
          end
      end
  end.

(** Trailing white space removed: the same scan over the reversed bytes,
    each rune's bytes read last to first. *)
Fixpoint trimLeftRev (s : list ascii) : list ascii :=
  match s with
  | [] => []
  | c1 :: s1 =>
      if asciiSpace c1 then trimLeftRev s1 else
      match s1 with
      | [] => s
      | c2 :: s2 =>
          if space2 c2 c1 then trimLeftRev s2 else
          match s2 with
          | [] => s
          | c3 :: s3 => if space3 c3 c2 c1 then trimLeftRev s3 else s
          end
      end
  end.

(** [strings.TrimSpace(s)]: all leading and trailing white space, as
    defined by Unicode, removed. *)
Definition TrimSpace (s : string) : string :=
  string_of_list_ascii
    (rev (trimLeftRev (rev (trimLeft (list_ascii_of_string s))))).

(** Decimal digits. *)
Definition isDigit (c : ascii) : bool := (48 <=? byteZ c) && (byteZ c <=? 57).
Definition digitVal (c : ascii) : Z := byteZ c - 48.

(** [digits[d]] of ["0123456789"]. *)
Definition digitChar (d : Z) : ascii := ascii_of_N (Z.to_N (48 + d)).

(** [appendDecimal(b, x uint8)] of net/netip: [x] in decimal, without
    leading zeros. *)
Definition appendDecimal (x : Z) : string :=
  (if 100 <=? x then String (digitChar (x / 100)) EmptyString else EmptyString)
  +:+ (if 10 <=? x then String (digitChar (x / 10 mod 10)) EmptyString else EmptyString)
  +:+ String (digitChar (x mod 10)) EmptyString.

(** [strconv.Atoi(s)] on a 64-bit platform: an optional sign, then one or
    more decimal digits and nothing else, the value within the range of
    [int]; [None] is a non-nil error. *)
Fixpoint atoiDigits (s : string) (n : Z) : option Z :=
  match s with
  | EmptyString => Some n
  | String c s' => if isDigit c then atoiDigits s' (n * 10 + digitVal c) else None
  end.

Definition Atoi (s : string) : option Z :=
  let '(neg, ds) :=
    match s with
    | String c s' =>
        if Ascii.eqb c "-" then (true, s')
        else if Ascii.eqb c "+" then (false, s')
        else (false, s)
    | EmptyString => (false, s)
    end in
  match ds with
  | EmptyString => None
  | _ =>
      match atoiDigits ds 0 with
      | Some n =>
          let v := if neg then - n else n in
          if (- 2 ^ 63 <=? v) && (v <=? 2 ^ 63 - 1) then Some v else None
      | None => None
      end
  end.

(** *** encoding/binary *)

(** [binary.BigEndian.Uint32(b)]: the first four bytes of [b], most
    significant first; a slice shorter than four bytes panics on the bounds
    check. *)
Definition Uint32 (b : list Z) : outcome Z :=
  match b with
  | b0 :: b1 :: b2 :: b3 :: _ =>
      Returns (Z.lor (Z.lor (Z.lor b3 (Z.shiftl b2 8)) (Z.shiftl b1 16)) (Z.shiftl b0 24))
  | _ => Panics "runtime error: index out of range [3]"
  end.

(** [binary.BigEndian.PutUint32(b, v)] on a fresh four-byte slice. *)
Definition PutUint32 (v : Z) : list Z :=
  [ Z.land (Z.shiftr v 24) 255; Z.land (Z.shiftr v 16) 255;
    Z.land (Z.shiftr v 8) 255; Z.land v 255 ].

(** *** net and net/netip *)

(** [IP.String()] of a four-byte address: dotted decimal.  ([main.go] calls
    it on the four bytes of [make(net.IP, 4)] only; other lengths are not
    modelled.) *)
Definition IPString (ip : list Z) : string :=
  match ip with
  | [a; b; c; d] =>
      appendDecimal a +:+ "." +:+ appendDecimal b +:+ "." +:+
      appendDecimal c +:+ "." +:+ appendDecimal d
  | _ => "?"
  end.

(** [parseIPv4Fields]: four decimal fields of at most 255 without leading
    zeros, separated by single dots.  [first] says the byte is the first of
    the text, [prevDot] that the byte before it is a dot; [fields] are the
    fields stored so far ([pos] is their number). *)
Fixpoint parseIPv4Fields (s : string) (first prevDot : bool) (val digLen : Z)
    (fields : list Z) : option (list Z) :=
  match s with
  | EmptyString =>
      if (length fields <? 3)%nat then None else Some (fields ++ [val])
  | String c s' =>
      if isDigit c then
        if (digLen =? 1) && (val =? 0) then None
        else
          let val' := val * 10 + digitVal c in
          if 255 <? val' then None
          else parseIPv4Fields s' false false val' (digLen + 1) fields
      else if Ascii.eqb c "." then
        if first || (match s' with EmptyString => true | _ => false end) || prevDot
        then None
        else if (length fields =? 3)%nat then None
        else parseIPv4Fields s' false true 0 0 (fields ++ [val])
      else None
  end.

Definition parseIPv4 (s : string) : option (list Z) :=
  parseIPv4Fields s true false 0 0 [].

(** A parsed address: its family and its bytes. *)
Inductive Addr : Type :=
  | Addr4 (ip : list Z)
  | Addr6 (ip : list Z).

Definition BitLen (a : Addr) : Z :=
  match a with Addr4 _ => 32 | Addr6 _ => 128 end.

Definition v4InV6Prefix : list Z := [0; 0; 0; 0; 0; 0; 0; 0; 0; 0; 255; 255].

Definition As16 (a : Addr) : list Z :=
  match a with Addr4 ip => v4InV6Prefix ++ ip | Addr6 ip => ip end.

(** The first of ['.'], [':'] and ['%'] in the text decides how
    [netip.ParseAddr] reads it. *)
Fixpoint firstMark (s : string) : option ascii :=
  match s with
  | EmptyString => None
  | String c s' =>
      if Ascii.eqb c "." || Ascii.eqb c ":" || Ascii.eqb c "%" then Some c
      else firstMark s'
  end.

Section Net.

(** The reading of IPv6 literals is left open: [parseIPv6 s] is the sixteen
    bytes of a literal that [netip.parseIPv6] accepts with an empty zone,
    and [None] otherwise. *)
Variable parseIPv6 : string -> option (list Z).

Definition ParseAddr (s : string) : option Addr :=
  match firstMark s with
  | Some c =>
      if Ascii.eqb c "." then Addr4 <$> parseIPv4 s
      else if Ascii.eqb c ":" then Addr6 <$> parseIPv6 s
      else None
  | None => None
  end.

(** [net.ParseIP(s)]: the sixteen-byte form of the address, [[]] (nil) when
    the text is not an address. *)
Definition ParseIP (s : string) : list Z :=
  match ParseAddr s with
  | Some a => As16 a
  | None => []
  end.

(** [IP.To4()]: the four-byte form of an IPv4 address, nil otherwise. *)
Definition To4 (ip : list Z) : list Z :=
  if (length ip =? 4)%nat then ip
  else if (length ip =? 16)%nat && bool_decide (take 12 ip = v4InV6Prefix)
  then drop 12 ip
  else [].

(** [dtoi(s)]: the decimal number [s] starts with, the number of its digits,
    and whether there is one below [big]. *)
Definition big : Z := 16777215.

Fixpoint dtoi_from (s : string) (n i : Z) : Z * Z * bool :=
  match s with
  | String c s' =>
      if isDigit c then
        let n' := n * 10 + digitVal c in
        if big <=? n' then (big, i, false) else dtoi_from s' n' (i + 1)
      else if i =? 0 then (0, 0, false) else (n, i, true)
  | EmptyString => if i =? 0 then (0, 0, false) else (n, i, true)
  end.

Definition dtoi (s : string) : Z * Z * bool := dtoi_from s 0 0.

(** [net.CIDRMask(ones, bits)], byte by byte. *)
Fixpoint CIDRMask_bytes (l : nat) (n : Z) : list Z :=
  match l with
  | O => []
  | S l' =>
      if 8 <=? n then 255 :: CIDRMask_bytes l' (n - 8)
      else Z.lxor (Z.shiftr 255 n) 255 :: CIDRMask_bytes l' 0
  end.

Definition CIDRMask (ones bits : Z) : list Z :=
  CIDRMask_bytes (Z.to_nat (bits / 8)) ones.

(** [IP.Mask(mask)]. *)
Definition allFF (b : list Z) : bool := forallb (Z.eqb 255) b.

Definition IPMask (ip mask : list Z) : list Z :=
  let mask :=
    if (length mask =? 16)%nat && (length ip =? 4)%nat && allFF (take 12 mask)
    then drop 12 mask else mask in
  let ip :=
    if (length mask =? 4)%nat && (length ip =? 16)%nat
       && bool_decide (take 12 ip = v4InV6Prefix)
    then drop 12 ip else ip in
  if (length ip =? length mask)%nat then zip_with Z.land ip mask else [].

Record IPNet : Type := { IP : list Z; Mask : list Z }.

(** The text before and after the first [sep]. *)
Fixpoint cut (s : string) (sep : ascii) : option (string * string) :=
  match s with
  | EmptyString => None
  | String c s' =>
      if Ascii.eqb c sep then Some (EmptyString, s')
      else match cut s' sep with
           | Some (before, after) => Some (String c before, after)
           | None => None
           end
  end.

(** [net.ParseCIDR(s)]: the network of ["address/length"]; [None] is the
    error "invalid CIDR address". *)
Definition ParseCIDR (s : string) : option IPNet :=
  match cut s "/" with
  | None => None
  | Some (addr, mask) =>
      match ParseAddr addr with
      | None => None
      | Some ipAddr =>
          let '(n, i, ok) := dtoi mask in
          if negb ok || negb (i =? Z.of_nat (String.length mask))
             || (n <? 0) || (BitLen ipAddr <? n)
          then None
          else
            let m := CIDRMask n (BitLen ipAddr) in
            Some {| IP := IPMask (As16 ipAddr) m; Mask := m |}
      end
  end.

End Net.

End Go.

Import Go.

(** ** Address expansion ([main.go], lines 138-253) *)

Definition wrap32 (x : Z) : Z := x mod 2 ^ 32.

(** The address [i] as text: [PutUint32] into a fresh [net.IP], then
    [ip.String()]. *)
Definition ipText (i : Z) : string := IPString (PutUint32 i).

(** [for i := start; i < end; i++] of [parseCIDRNetwork], on [uint32]. *)
Fixpoint cidrLoop (fuel : nat) (i end_ : Z) (addresses : list string)
    : outcome (list string) :=
  match fuel with
  | O => OutOfFuel
  | S fuel' =>
      if i <? end_
      then cidrLoop fuel' (wrap32 (i + 1)) end_ (addresses ++ [ipText i])
      else Returns addresses
  end.

(** [for i := start; i <= end; i++] of [parseNetworkBlock], on [uint32]. *)
Fixpoint blockLoop (fuel : nat) (i end_ : Z) (addresses : list string)
    : outcome (list string) :=
  match fuel with
  | O => OutOfFuel
  | S fuel' =>
      if i <=? end_
      then blockLoop fuel' (wrap32 (i + 1)) end_ (addresses ++ [ipText i])
      else Returns addresses
  end.

(** What [ErrorLogger.Panicf] prints and panics with: its format has a
    verb and the call passes no argument. *)
Definition blockPanic : string :=
  quote +:+ "%!s(MISSING)" +:+ quote +:+
  " is not a valid block. Missing or more than 1 slash" +:+ String newline "".

Definition skipMessage (address : string) : string :=
  "Unable to parse " +:+ quote +:+ address +:+ quote +:+ ". Skipping..."
  +:+ String newline "".

Section Expander.

Variable parseIPv6 : string -> option (list Z).

(** [parseCIDRNetwork]: the addresses and the error ([None] is nil). *)
Definition parseCIDRNetwork (fuel : nat) (ipRange : string)
    : outcome (list string * option string) :=
  match ParseCIDR parseIPv6 ipRange with
  | None => Returns ([], Some ("invalid CIDR address: " +:+ ipRange))
  | Some ipv4Net =>
      mask ← Uint32 (Mask ipv4Net);
      start ← Uint32 (IP ipv4Net);
      let end_ := Z.lor (Z.land start mask) (Z.lxor mask 4294967295) in
      addresses ← cidrLoop fuel start end_ [];
      Returns (addresses, None)
  end.

(** [parseNetworkBlock]. *)
Definition parseNetworkBlock (fuel : nat) (ipBlock : string)
    : outcome (list string * option string) :=
  let block := TrimSpace ipBlock in
  let edges := Split block "-" in
  match edges with
  | [edge0; edge1] =>
      let ipv4AddrStart := ParseIP parseIPv6 edge0 in
      start ← Uint32 (To4 ipv4AddrStart);
      let ipv4AddrEnd := ParseIP parseIPv6 edge1 in
      end_ ← Uint32 (To4 ipv4AddrEnd);
      addresses ← blockLoop fuel start end_ [];
      Returns (addresses, None)
  | _ => Panics blockPanic
  end.

(** [parseAddresses]: the addresses of one line and what it writes to the
    standard error stream (the error it returns is always nil). *)
Definition parseAddresses (fuel : nat) (address : string)
    : outcome (list string * list string) :=
  '(parsedRange, err, printed) ←
    (if Contains address "/" then
       '(parsedRange, err) ← parseCIDRNetwork fuel address;
       Returns (parsedRange, err, [])
     else if Contains address "-" then
       '(parsedRange, err) ← parseNetworkBlock fuel address;
       Returns (parsedRange, err,
                match err with Some e => [e] | None => [] end)
     else Returns ([address], None, []));
  match err with
  | Some _ => Returns (parsedRange, printed ++ [skipMessage address])
  | None => Returns (parsedRange, printed)
  end.

(** The loop of [getAddressesFromFile] and [getAddressesFromStdin] over the
    lines read. *)
Fixpoint expandLines (fuel : nat) (lines : list string)
    (addresses stderr : list string) : outcome (list string * list string) :=
  match lines with
  | [] => Returns (addresses, stderr)
  | line :: lines' =>
      '(parsedAddresses, logged) ← parseAddresses fuel line;
      expandLines fuel lines' (addresses ++ parsedAddresses) (stderr ++ logged)
  end.

(** [getAddressesFromFile]: [file] is what [os.ReadFile] gives, [None] when
    it fails. *)
Definition getAddressesFromFile (fuel : nat) (file : option string)
    : outcome (list string * option string * list string) :=
  match file with
  | None => Returns ([], Some "read error", [])
  | Some f =>
      let fileLines := Split f newline in
      '(addresses, stderr) ← expandLines fuel fileLines [] [];
      Returns (addresses, None, stderr)
  end.

(** [getAddressesFromStdin]: [scanned] are the lines [bufio.Scanner]
    yields. *)
Definition getAddressesFromStdin (fuel : nat) (scanned : list string)
    : outcome (list string * option string * list string) :=
  '(addresses, stderr) ← expandLines fuel scanned [] [];
  Returns (addresses, None, stderr).

End Expander.

(** * Probing ([main.go], lines 78-83, 127-135, 166-179 and 255-284) *)

(** The fields of [url.URL] that the target has. *)
Record URL : Type := { Scheme : string; Host : string; Path : string; RawQuery : string }.

(** [u.Host = h] on a [url.URL] value. *)
Definition setHost (h : string) (u : URL) : URL :=
  {| Scheme := Scheme u; Host := h; Path := Path u; RawQuery := RawQuery u |}.

(** An [http.Request] as [doRequest] builds it: the URL text given to
    [http.NewRequest], the [Host] field and the header. *)
Record Request : Type :=
  { Method : string; RawURL : string; ReqHost : string; Header : list (string * string) }.

(** What [Client.Do] gives: an error (a timeout, a refused connection, ...)
    or a response with its status code and its body, [None] when reading
    the body fails. *)
Inductive transport : Type :=
  | TransportFails (err : string)
  | Responds (StatusCode : Z) (Body : option string).

(** The errors [doRequest] returns. *)
Inductive error : Type :=
  | ErrNewRequest
  | ErrTransport (err : string)
  | ErrStatus (StatusCode : Z)
  | ErrReadBody.

(** A printed line: the address and the similarity (their formatting with
    ["%-17s%.2f%%\n"] is left out). *)
Definition line : Type := string * Q.

Definition userAgent : string :=
  "Mozilla/5.0 (X11; Linux x86_64) AppleWebKit/537.36 (KHTML, like Gecko) Chrome/51.0.2704.103 Safari/537.36".

(** [ValidStatusCodes[code]]: a missing key reads as [false]. *)
Definition lookupCode (ValidStatusCodes : gmap Z bool) (code : Z) : bool :=
  default false (ValidStatusCodes !! code).

(** The loop of [main] over the comma-separated status codes. *)
Definition parseValidStatusCodes (validStatusCodes : string)
    (ValidStatusCodes : gmap Z bool) : gmap Z bool :=
  foldl (fun m strCode =>
           match Atoi strCode with
           | Some code => <[code := true]> m
           | None => m
           end)
        ValidStatusCodes (Split validStatusCodes ",").

Section Probe.

(** [u.String()] and whether [http.NewRequest(method, url, body)] accepts
    its arguments: both of net/url and net/http, left open. *)
Variable URLString : URL -> string.
Variable NewRequestOk : string -> string -> bool.

(** The global [ValidStatusCodes], as [main] has filled it. *)
Variable ValidStatusCodes : gmap Z bool.

(** [doRequest]: the request handed to [Client.Do], if one is, then the
    body and the error ([None] is nil).  [Client_Do] is the answer of the
    network. *)
Definition doRequest (method u vhost cookieString : string)
    (Client_Do : Request -> transport) : option Request * string * option error :=
  if negb (NewRequestOk method u) then (None, "", Some ErrNewRequest)
  else
    let header := [("User-Agent", userAgent)] in
    let header :=
      if (0 <? String.length cookieString)%nat
      then header ++ [("Cookie", cookieString)] else header in
    let req := {| Method := method; RawURL := u; ReqHost := vhost; Header := header |} in
    match Client_Do req with
    | TransportFails err => (Some req, "", Some (ErrTransport err))
    | Responds statusCode body =>
        if (300 <=? statusCode) && negb (lookupCode ValidStatusCodes statusCode)
        then (Some req, "", Some (ErrStatus statusCode))
        else match body with
             | None => (Some req, "", Some ErrReadBody)
             | Some bodyBytes => (Some req, bodyBytes, None)
             end
    end.

(** [performTest] with its arguments [originalBody], [comparator] and
    [cookieString]; [u] and [address] are in the goroutine. *)
Variable originalBody : string.
Variable comparator : string -> string -> Q.
Variable cookieString : string.

(** Where a goroutine running [performTest] is. *)
Inductive pc : Type :=
  | AtEntry      (* before [vhost := u.Host] *)
  | HasVhost     (* before [u.Host = address] *)
  | HostSet      (* before [doRequest] *)
  | Returned     (* [doRequest] has returned *)
  | Exited.      (* after [wg.Done()] *)

(** A goroutine: its own copy [g_u] of the URL (the parameter [u url.URL]
    is passed by value), its locals, the request it has sent and what
    [doRequest] returned to it. *)
Record goroutine : Type := {
  g_u : URL;
  g_address : string;
  g_vhost : string;
  g_pc : pc;
  g_sent : option Request;
  g_result : option (string * option error)
}.

(** One step of a goroutine, with the lines it prints. *)
Inductive gstep : goroutine -> goroutine -> list line -> Prop :=
  | gstep_vhost g :
      g_pc g = AtEntry ->
      gstep g {| g_u := g_u g; g_address := g_address g; g_vhost := Host (g_u g);
                 g_pc := HasVhost; g_sent := g_sent g; g_result := g_result g |} []
  | gstep_host g :
      g_pc g = HasVhost ->
      gstep g {| g_u := setHost (g_address g) (g_u g); g_address := g_address g;
                 g_vhost := g_vhost g; g_pc := HostSet;
                 g_sent := g_sent g; g_result := g_result g |} []
  | gstep_request g Client_Do sent checkedBody err :
      g_pc g = HostSet ->
      doRequest "GET" (URLString (g_u g)) (g_vhost g) cookieString Client_Do
      = (sent, checkedBody, err) ->
      gstep g {| g_u := g_u g; g_address := g_address g; g_vhost := g_vhost g;
                 g_pc := Returned; g_sent := sent;
                 g_result := Some (checkedBody, err) |} []
  | gstep_failed g checkedBody e :
      g_pc g = Returned -> g_result g = Some (checkedBody, Some e) ->
      gstep g {| g_u := g_u g; g_address := g_address g; g_vhost := g_vhost g;
                 g_pc := Exited; g_sent := g_sent g; g_result := g_result g |} []
  | gstep_print g checkedBody :
      g_pc g = Returned -> g_result g = Some (checkedBody, None) ->
      gstep g {| g_u := g_u g; g_address := g_address g; g_vhost := g_vhost g;
                 g_pc := Exited; g_sent := g_sent g; g_result := g_result g |}
            [(g_address g, comparator checkedBody originalBody)].

(** The run of [main] from its loop on: the URL [*u] of [main], the
    addresses not yet dispatched, the goroutines, and the two output
    streams. *)
Record world : Type := {
  w_u : URL;
  w_pending : list string;
  w_gs : list goroutine;
  w_stdout : list line;
  w_stderr : list string
}.

Definition spawn (u : URL) (address : string) : goroutine :=
  {| g_u := u; g_address := address; g_vhost := ""; g_pc := AtEntry;
     g_sent := None; g_result := None |}.

(** [main] starts the next goroutine with a copy of [*u], or some
    goroutine takes a step. *)
Inductive step : world -> world -> Prop :=
  | step_go w address rest :
      w_pending w = address :: rest ->
      step w {| w_u := w_u w; w_pending := rest;
                w_gs := w_gs w ++ [spawn (w_u w) address];
                w_stdout := w_stdout w; w_stderr := w_stderr w |}
  | step_goroutine w gs1 g gs2 g' out :
      w_gs w = gs1 ++ g :: gs2 ->
      gstep g g' out ->
      step w {| w_u := w_u w; w_pending := w_pending w;
                w_gs := gs1 ++ g' :: gs2;
                w_stdout := w_stdout w ++ out; w_stderr := w_stderr w |}.

(** The state when [main] enters its loop over [addresses], with [u] the
    parsed target. *)
Definition initial (u : URL) (addresses : list string) : world :=
  {| w_u := u; w_pending := addresses; w_gs := []; w_stdout := []; w_stderr := [] |}.

(** [wg.Wait()] returns: every address dispatched, every goroutine exited. *)
Definition finished (w : world) : Prop :=
  w_pending w = [] /\ Forall (fun g => g_pc g = Exited) (w_gs w).

(** The line a goroutine has printed. *)
Definition printedBy (g : goroutine) : list line :=
  match g_pc g, g_result g with
  | Exited, Some (checkedBody, None) =>
      [(g_address g, comparator checkedBody originalBody)]
  | _, _ => []
  end.

End Probe.

#[global] Instance pc_eq_dec : EqDecision pc.
Proof. solve_decision. Defined.

(** ** Runs and what holds along them *)

Section Run.

Variable URLString : URL -> string.
Variable NewRequestOk : string -> string -> bool.
Variable ValidStatusCodes : gmap Z bool.
Variable originalBody : string.
Variable comparator : string -> string -> Q.
Variable cookieString : string.

(** The target of the run and the addresses to probe. *)
Variable u0 : URL.
Variable addresses : list string.

Definition reachable (w : world) : Prop :=
  rtc (step URLString NewRequestOk ValidStatusCodes originalBody comparator cookieString)
      (initial u0 addresses) w.

(** What holds of a goroutine all along: before its own substitution it
    sees the target as [main] parsed it, after it only the host differs; the
    request it has sent has the URL with its address as host and the
    target's host in the [Host] field; and once [doRequest] has returned the
    result is there. *)
Definition goroutineOk (g : goroutine) : Prop :=
  match g_pc g with
  | AtEntry => g_u g = u0
  | HasVhost => g_u g = u0 /\ g_vhost g = Host u0
  | HostSet => g_u g = setHost (g_address g) u0 /\ g_vhost g = Host u0
  | Returned | Exited => is_Some (g_result g)
  end
  /\ forall req, g_sent g = Some req ->
       RawURL req = URLString (setHost (g_address g) u0) /\ ReqHost req = Host u0.



Definition worldOk (w : world) : Prop :=
  w_u w = u0
  /\ Forall goroutineOk (w_gs w)
  /\ (g_address <$> w_gs w) ++ w_pending w = addresses
  /\ w_stderr w = []
  /\ w_stdout w ≡ₚ concat (printedBy originalBody comparator <$> w_gs w).

End Run.

(** A run on one address whose probe times out. *)
Definition demoURL : URL :=
  {| Scheme := "https"; Host := "example.com"; Path := "/"; RawQuery := "" |}.

Definition demoURLString (u : URL) : string :=
  Scheme u +:+ "://" +:+ Host u +:+ Path u.

Definition demoRequest : Request :=
  {| Method := "GET"; RawURL := "https://10.0.0.1/"; ReqHost := "example.com";
     Header := [("User-Agent", userAgent)] |}.


(** A run on one address whose probe is answered with status 200. *)
Definition demoPrinted : world :=
  {| w_u := demoURL; w_pending := [];
     w_gs := [ {| g_u := setHost "10.0.0.1" demoURL; g_address := "10.0.0.1";
                  g_vhost := "example.com"; g_pc := Exited;
                  g_sent := Some demoRequest;
                  g_result := Some ("original", None) |} ];
     w_stdout := [("10.0.0.1", 1%Q)]; w_stderr := [] |}.

(** * Texts, words and lines the statements speak of *)

(** Texts made of decimal digits only. *)
Fixpoint allDigits (s : string) : bool :=
  match s with
  | EmptyString => true
  | String c s' => isDigit c && allDigits s'
  end.

(** Texts made of decimal digits and dots: what [IPString] prints. *)
Fixpoint dotted (s : string) : bool :=
  match s with
  | EmptyString => true
  | String c s' => (isDigit c || Ascii.eqb c ".") && dotted s'
  end.

(** An ASCII byte that is no white space. *)
Definition plainb (c : ascii) : bool := (byteZ c <? 128) && negb (asciiSpace c).

Definition allPlain (s : string) : bool := forallb plainb (list_ascii_of_string s).

(** The big-endian value of four bytes. *)
Definition be32 (b0 b1 b2 b3 : Z) : Z := b0 * 2 ^ 24 + b1 * 2 ^ 16 + b2 * 2 ^ 8 + b3.

Definition ndigits (x : Z) : Z := if 100 <=? x then 3 else if 10 <=? x then 2 else 1.

(** The mask of prefix length [n] as a word. *)
Definition maskWord (n : Z) : Z := 2 ^ 32 - 2 ^ (32 - n).

(** The line ["a.b.c.d/n"]. *)
Definition cidrLine (a b c d n : Z) : string :=
  IPString [a; b; c; d] +:+ "/" +:+ appendDecimal n.

(** The line ["start-end"], both addresses in dotted decimal. *)
Definition blockLine (start end_ : Z) : string :=
  ipText start +:+ "-" +:+ ipText end_.

(** Texts made of ASCII white space only. *)
Definition allBlank (s : string) : bool := forallb asciiSpace (list_ascii_of_string s).

(** A byte, and a [uint32]. *)
Definition isByte (b : Z) : Prop := 0 <= b < 256.
Definition isU32 (x : Z) : Prop := 0 <= x < 2 ^ 32.

(** What [netip.parseIPv6] is known to give: sixteen bytes. *)
Definition sixteenBytes (parseIPv6 : string -> option (list Z)) : Prop :=
  forall s ip, parseIPv6 s = Some ip -> length ip = 16%nat /\ Forall isByte ip.

(** * Proofs *)

(** Goals with division and remainder by constants. *)
Ltac zdiv := Z.div_mod_to_equations; lia.

(** Appending to a text that starts with known bytes. *)
Lemma String_app c s r : String c s +:+ r = String c (s +:+ r).
Proof. reflexivity. Qed.

Lemma Empty_app r : "" +:+ r = r.
Proof. reflexivity. Qed.

Lemma app_Empty s : s +:+ "" = s.
Proof. induction s as [|c s IH]; [done|]. by rewrite String_app, IH. Qed.

Ltac str_norm := repeat (rewrite String_app || rewrite Empty_app).

(** ** Bytes and decimal digits *)

Lemma byteZ_digitChar d : 0 <= d < 10 -> byteZ (digitChar d) = 48 + d.
Proof.
  intros Hd. unfold byteZ, digitChar.
  rewrite N_ascii_embedding by lia. lia.
Qed.

Lemma isDigit_digitChar d : 0 <= d < 10 -> isDigit (digitChar d) = true.
Proof.
  intros Hd. unfold isDigit. rewrite byteZ_digitChar by done.
  apply andb_true_iff. split; apply Z.leb_le; lia.
Qed.

Lemma digitVal_digitChar d : 0 <= d < 10 -> digitVal (digitChar d) = d.
Proof. intros Hd. unfold digitVal. rewrite byteZ_digitChar by done. lia. Qed.

Lemma eqb_byteZ_ne c1 c2 : byteZ c1 <> byteZ c2 -> Ascii.eqb c1 c2 = false.
Proof.
  intros Hne. destruct (Ascii.eqb c1 c2) eqn:E; [|done].
  apply Ascii.eqb_eq in E. by subst.
Qed.

Lemma isDigit_eqb c sep : isDigit c = true -> isDigit sep = false -> Ascii.eqb c sep = false.
Proof.
  intros Hc Hs. destruct (Ascii.eqb c sep) eqn:E; [|done].
  apply Ascii.eqb_eq in E. subst. congruence.
Qed.

Lemma isDigit_not_space c : isDigit c = true -> asciiSpace c = false.
Proof.
  unfold isDigit, asciiSpace. intros [H1 H2]%andb_true_iff.
  apply Z.leb_le in H1. apply Z.leb_le in H2.
  repeat (apply orb_false_iff; split); apply Z.eqb_neq; lia.
Qed.

Lemma dotted_app s1 s2 : dotted (s1 +:+ s2) = dotted s1 && dotted s2.
Proof. induction s1 as [|c s1 IH]; simpl; [done|]. rewrite IH. by rewrite andb_assoc. Qed.

Lemma allDigits_dotted s : allDigits s = true -> dotted s = true.
Proof.
  induction s as [|c s IH]; simpl; [done|].
  intros [-> ?]%andb_true_iff. simpl. auto.
Qed.

Lemma allDigits_appendDecimal x : 0 <= x < 256 -> allDigits (appendDecimal x) = true.
Proof.
  intros Hx. unfold appendDecimal.
  assert (0 <= x / 100 < 10) by zdiv.
  assert (0 <= x / 10 mod 10 < 10) by zdiv.
  assert (0 <= x mod 10 < 10) by zdiv.
  destruct (100 <=? x), (10 <=? x); simpl; rewrite ?isDigit_digitChar by done; done.
Qed.

Lemma dotted_IPString a b c d :
  0 <= a < 256 -> 0 <= b < 256 -> 0 <= c < 256 -> 0 <= d < 256 ->
  dotted (IPString [a; b; c; d]) = true.
Proof.
  intros. unfold IPString. rewrite !dotted_app.
  rewrite (allDigits_dotted (appendDecimal a)), (allDigits_dotted (appendDecimal b)),
    (allDigits_dotted (appendDecimal c)), (allDigits_dotted (appendDecimal d))
    by (by apply allDigits_appendDecimal).
  done.
Qed.

(** ** [Contains], [Split] and [cut] on such texts *)

Lemma Contains_app s1 s2 sep : Contains (s1 +:+ s2) sep = Contains s1 sep || Contains s2 sep.
Proof.
  induction s1 as [|c s1 IH]; simpl; [done|].
  destruct (Ascii.eqb c sep); [done|apply IH].
Qed.

Lemma Contains_dotted s sep :
  dotted s = true -> isDigit sep = false -> Ascii.eqb "." sep = false ->
  Contains s sep = false.
Proof.
  intros Hs Hsep Hdot. induction s as [|c s IH]; cbn [Contains dotted] in *; [done|].
  apply andb_true_iff in Hs as [Hc Hs].
  rewrite IH by done.
  apply orb_true_iff in Hc as [Hc|Hc].
  - by rewrite (isDigit_eqb c sep).
  - apply Ascii.eqb_eq in Hc. subst. by rewrite Hdot.
Qed.

Lemma Split_not_Contains s sep : Contains s sep = false -> Split s sep = [s].
Proof.
  induction s as [|c s IH]; simpl; [done|].
  destruct (Ascii.eqb c sep); [done|]. intros H. by rewrite IH.
Qed.

Lemma Split_app_sep s1 s2 sep :
  Contains s1 sep = false ->
  Split (s1 +:+ String sep s2) sep = s1 :: Split s2 sep.
Proof.
  induction s1 as [|c s1 IH]; simpl.
  - intros _. by rewrite Ascii.eqb_refl.
  - destruct (Ascii.eqb c sep); [done|]. intros H. by rewrite IH.
Qed.

Lemma cut_app_sep s1 s2 sep :
  Contains s1 sep = false -> cut (s1 +:+ String sep s2) sep = Some (s1, s2).
Proof.
  induction s1 as [|c s1 IH]; simpl.
  - intros _. by rewrite Ascii.eqb_refl.
  - destruct (Ascii.eqb c sep); [done|]. intros H. by rewrite IH.
Qed.

Lemma length_Split s sep : (1 <= length (Split s sep))%nat.
Proof.
  induction s as [|c s IH]; simpl; [lia|].
  destruct (Ascii.eqb c sep); simpl; [lia|].
  destruct (Split s sep); simpl in *; lia.
Qed.

(** ** [TrimSpace] leaves a text without white space alone *)

Lemma trimLeft_plain c l : plainb c = true -> trimLeft (c :: l) = c :: l.
Proof.
  unfold plainb. intros [Hlt Hsp]%andb_true_iff.
  apply Z.ltb_lt in Hlt. apply negb_true_iff in Hsp.
  cbn [trimLeft]. rewrite Hsp.
  assert (space2 c = fun _ => false) as E2.
  { unfold space2. replace (byteZ c =? 194) with false by (symmetry; apply Z.eqb_neq; lia). done. }
  assert (forall c2 c3, space3 c c2 c3 = false) as E3.
  { intros c2 c3. unfold space3. cbv zeta.
    replace (byteZ c =? 225) with false by (symmetry; apply Z.eqb_neq; lia).
    replace (byteZ c =? 226) with false by (symmetry; apply Z.eqb_neq; lia).
    replace (byteZ c =? 227) with false by (symmetry; apply Z.eqb_neq; lia).
    done. }
  destruct l as [|c2 [|c3 l]]; rewrite ?E2, ?E3; done.
Qed.

Lemma trimLeftRev_plain c l : plainb c = true -> trimLeftRev (c :: l) = c :: l.
Proof.
  unfold plainb. intros [Hlt Hsp]%andb_true_iff.
  apply Z.ltb_lt in Hlt. apply negb_true_iff in Hsp.
  cbn [trimLeftRev]. rewrite Hsp.
  assert (forall c2, space2 c2 c = false) as E2.
  { intros c2. unfold space2.
    replace (byteZ c =? 133) with false by (symmetry; apply Z.eqb_neq; lia).
    replace (byteZ c =? 160) with false by (symmetry; apply Z.eqb_neq; lia).
    apply andb_false_r. }
  assert (forall c2 c3, space3 c3 c2 c = false) as E3.
  { intros c2 c3. unfold space3. cbv zeta.
    replace (byteZ c =? 128) with false by (symmetry; apply Z.eqb_neq; lia).
    replace (128 <=? byteZ c) with false by (symmetry; apply Z.leb_gt; lia).
    replace (byteZ c =? 168) with false by (symmetry; apply Z.eqb_neq; lia).
    replace (byteZ c =? 169) with false by (symmetry; apply Z.eqb_neq; lia).
    replace (byteZ c =? 175) with false by (symmetry; apply Z.eqb_neq; lia).
    replace (byteZ c =? 159) with false by (symmetry; apply Z.eqb_neq; lia).
    cbn [andb orb]. rewrite !andb_false_r. done. }
  destruct l as [|c2 [|c3 l]]; rewrite ?E2, ?E3; done.
Qed.

Lemma TrimSpace_allPlain s : allPlain s = true -> TrimSpace s = s.
Proof.
  unfold allPlain, TrimSpace. intros Hs.
  rewrite <- (string_of_list_ascii_of_string s) at 2.
  f_equal.
  destruct (list_ascii_of_string s) as [|c l] eqn:El; [done|].
  rewrite forallb_forall in Hs.
  rewrite trimLeft_plain by (apply Hs; left; done).
  destruct (rev (c :: l)) as [|c' l'] eqn:Er.
  { apply (f_equal (@length _)) in Er. rewrite length_rev in Er. done. }
  rewrite trimLeftRev_plain.
  - rewrite <- Er. apply rev_involutive.
  - apply Hs. apply in_rev. rewrite Er. by left.
Qed.

Lemma list_ascii_of_string_app s1 s2 :
  list_ascii_of_string (s1 +:+ s2) = list_ascii_of_string s1 ++ list_ascii_of_string s2.
Proof. induction s1 as [|c s1 IH]; simpl; [done|]. by rewrite IH. Qed.

Lemma allPlain_app s1 s2 : allPlain (s1 +:+ s2) = allPlain s1 && allPlain s2.
Proof. unfold allPlain. by rewrite list_ascii_of_string_app, forallb_app. Qed.

Lemma isDigit_plainb c : isDigit c = true -> plainb c = true.
Proof.
  intros Hc. unfold plainb. rewrite (isDigit_not_space c Hc).
  unfold isDigit in Hc. apply andb_true_iff in Hc as [_ Hc]. apply Z.leb_le in Hc.
  apply andb_true_iff. split; [apply Z.ltb_lt; lia | done].
Qed.

Lemma dotted_allPlain s : dotted s = true -> allPlain s = true.
Proof.
  unfold allPlain. induction s as [|c s IH]; cbn [dotted list_ascii_of_string forallb]; [done|].
  intros [Hc Hs]%andb_true_iff. rewrite IH by done.
  apply orb_true_iff in Hc as [Hc|Hc].
  - by rewrite isDigit_plainb.
  - apply Ascii.eqb_eq in Hc. by subst.
Qed.

(** ** Big-endian words *)

Lemma testbit_small a k j : 0 <= a < 2 ^ k -> k <= j -> Z.testbit a j = false.
Proof.
  intros Ha Hj. destruct (Z.eq_dec a 0) as [->|Hne]; [apply Z.bits_0|].
  apply Z.bits_above_log2; [lia|].
  assert (0 <= k) by (destruct (Z.le_gt_cases 0 k); [done|]; rewrite Z.pow_neg_r in Ha; lia).
  apply Z.lt_le_trans with k; [|done].
  apply Z.log2_lt_pow2; lia.
Qed.

Lemma lor_shiftl_add a b k :
  0 <= k -> 0 <= a < 2 ^ k -> Z.lor a (Z.shiftl b k) = a + b * 2 ^ k.
Proof.
  intros Hk Ha.
  assert (Z.land a (Z.shiftl b k) = 0) as Hdisj.
  { apply Z.bits_inj'. intros j Hj.
    rewrite Z.land_spec, Z.bits_0, Z.shiftl_spec by done.
    destruct (Z.lt_ge_cases j k).
    - rewrite (Z.testbit_neg_r b) by lia. apply andb_false_r.
    - by rewrite (testbit_small a k j). }
  rewrite <- Z.lxor_lor, <- Z.add_nocarry_lxor by done.
  by rewrite Z.shiftl_mul_pow2.
Qed.

Lemma Uint32_be32 b0 b1 b2 b3 rest :
  0 <= b0 < 256 -> 0 <= b1 < 256 -> 0 <= b2 < 256 -> 0 <= b3 < 256 ->
  Uint32 (b0 :: b1 :: b2 :: b3 :: rest) = Returns (be32 b0 b1 b2 b3).
Proof.
  intros. unfold Uint32, be32. f_equal.
  rewrite (lor_shiftl_add b3 b2 8) by lia.
  rewrite (lor_shiftl_add _ b1 16) by lia.
  rewrite (lor_shiftl_add _ b0 24) by lia.
  lia.
Qed.

Lemma be32_range b0 b1 b2 b3 :
  0 <= b0 < 256 -> 0 <= b1 < 256 -> 0 <= b2 < 256 -> 0 <= b3 < 256 ->
  0 <= be32 b0 b1 b2 b3 < 2 ^ 32.
Proof. unfold be32. lia. Qed.

Lemma land_255 x : Z.land x 255 = x mod 256.
Proof. change 255 with (Z.ones 8). rewrite Z.land_ones by lia. done. Qed.

Lemma PutUint32_bytes v :
  PutUint32 v = [v / 2 ^ 24 mod 256; v / 2 ^ 16 mod 256; v / 2 ^ 8 mod 256; v mod 256].
Proof. unfold PutUint32. by rewrite !land_255, !Z.shiftr_div_pow2 by lia. Qed.

Lemma be32_PutUint32 v :
  0 <= v < 2 ^ 32 ->
  be32 (v / 2 ^ 24 mod 256) (v / 2 ^ 16 mod 256) (v / 2 ^ 8 mod 256) (v mod 256) = v.
Proof. intros Hv. unfold be32. Z.div_mod_to_equations. lia. Qed.

Lemma PutUint32_be32 b0 b1 b2 b3 :
  0 <= b0 < 256 -> 0 <= b1 < 256 -> 0 <= b2 < 256 -> 0 <= b3 < 256 ->
  PutUint32 (be32 b0 b1 b2 b3) = [b0; b1; b2; b3].
Proof.
  intros. rewrite PutUint32_bytes. unfold be32.
  repeat f_equal; Z.div_mod_to_equations; lia.
Qed.

Lemma Uint32_PutUint32 v rest :
  0 <= v < 2 ^ 32 -> Uint32 (PutUint32 v ++ rest) = Returns v.
Proof.
  intros Hv. rewrite PutUint32_bytes. cbn [app].
  rewrite Uint32_be32 by (apply Z.mod_pos_bound; lia).
  by rewrite be32_PutUint32.
Qed.

(** ** Reading back what [IPString] prints *)

Lemma appendDecimal_cons x rest : exists c s, appendDecimal x +:+ rest = String c s.
Proof. unfold appendDecimal. destruct (100 <=? x), (10 <=? x); simpl; eauto. Qed.

Lemma parseIPv4Fields_octet x rest first prevDot fields :
  0 <= x < 256 ->
  parseIPv4Fields (appendDecimal x +:+ rest) first prevDot 0 0 fields
  = parseIPv4Fields rest false false x (ndigits x) fields.
Proof.
  intros Hx. unfold appendDecimal, ndigits.
  assert (0 <= x / 100 < 10) by zdiv.
  assert (0 <= x / 10 mod 10 < 10) by zdiv.
  assert (0 <= x mod 10 < 10) by zdiv.
  destruct (Z.leb_spec 100 x), (Z.leb_spec 10 x); try lia;
    str_norm; cbn [parseIPv4Fields];
    rewrite ?isDigit_digitChar, ?digitVal_digitChar by done.
  - replace ((0 =? 1) && (0 =? 0)) with false by done.
    replace (255 <? 0 * 10 + x / 100) with false by (symmetry; apply Z.ltb_ge; zdiv).
    replace ((0 + 1 =? 1) && (0 * 10 + x / 100 =? 0)) with false
      by (symmetry; apply andb_false_iff; right; apply Z.eqb_neq; zdiv).
    replace ((0 * 10 + x / 100) * 10 + x / 10 mod 10) with (x / 10) by zdiv.
    replace (255 <? x / 10) with false by (symmetry; apply Z.ltb_ge; zdiv).
    replace ((0 + 1 + 1 =? 1) && (x / 10 =? 0)) with false by done.
    replace (x / 10 * 10 + x mod 10) with x by zdiv.
    replace (255 <? x) with false by (symmetry; apply Z.ltb_ge; lia).
    done.
  - replace ((0 =? 1) && (0 =? 0)) with false by done.
    replace (0 * 10 + x / 10 mod 10) with (x / 10) by zdiv.
    replace (255 <? x / 10) with false by (symmetry; apply Z.ltb_ge; zdiv).
    replace ((0 + 1 =? 1) && (x / 10 =? 0)) with false
      by (symmetry; apply andb_false_iff; right; apply Z.eqb_neq; zdiv).
    replace (x / 10 * 10 + x mod 10) with x by zdiv.
    replace (255 <? x) with false by (symmetry; apply Z.ltb_ge; lia).
    done.
  - replace ((0 =? 1) && (0 =? 0)) with false by done.
    replace (0 * 10 + x mod 10) with x by zdiv.
    replace (255 <? x) with false by (symmetry; apply Z.ltb_ge; lia).
    done.
Qed.

Lemma parseIPv4Fields_dot x rest val digLen fields :
  0 <= x < 256 -> (length fields < 3)%nat ->
  parseIPv4Fields (String "." (appendDecimal x +:+ rest)) false false val digLen fields
  = parseIPv4Fields rest false false x (ndigits x) (fields ++ [val]).
Proof.
  intros Hx Hlen. cbn [parseIPv4Fields].
  replace (isDigit ".") with false by done.
  rewrite Ascii.eqb_refl.
  destruct (appendDecimal_cons x rest) as (c & s & E).
  rewrite E. cbn [orb].
  replace (length fields =? 3)%nat with false by (symmetry; apply Nat.eqb_neq; lia).
  rewrite <- E. by apply parseIPv4Fields_octet.
Qed.

Lemma parseIPv4_IPString a b c d :
  0 <= a < 256 -> 0 <= b < 256 -> 0 <= c < 256 -> 0 <= d < 256 ->
  parseIPv4 (IPString [a; b; c; d]) = Some [a; b; c; d].
Proof.
  intros. unfold parseIPv4, IPString.
  rewrite parseIPv4Fields_octet by done. str_norm.
  rewrite parseIPv4Fields_dot by (done || simpl; lia). str_norm.
  rewrite parseIPv4Fields_dot by (done || simpl; lia). str_norm.
  rewrite <- (app_Empty (appendDecimal d)) at 1.
  rewrite parseIPv4Fields_dot by (done || simpl; lia).
  done.
Qed.

Lemma firstMark_digits_dot s rest :
  allDigits s = true -> firstMark (s +:+ String "." rest) = Some "."%char.
Proof.
  induction s as [|c s IH]; str_norm; cbn [allDigits firstMark]; [done|].
  intros [Hc Hs]%andb_true_iff.
  rewrite !(isDigit_eqb c) by done. cbn [orb]. by apply IH.
Qed.

Lemma firstMark_IPString a b c d :
  0 <= a < 256 -> firstMark (IPString [a; b; c; d]) = Some "."%char.
Proof.
  intros. unfold IPString. str_norm.
  apply firstMark_digits_dot. by apply allDigits_appendDecimal.
Qed.

Section ReadBack.

Variable parseIPv6 : string -> option (list Z).

Lemma ParseAddr_IPString a b c d :
  0 <= a < 256 -> 0 <= b < 256 -> 0 <= c < 256 -> 0 <= d < 256 ->
  ParseAddr parseIPv6 (IPString [a; b; c; d]) = Some (Addr4 [a; b; c; d]).
Proof.
  intros. unfold ParseAddr. rewrite firstMark_IPString by done.
  rewrite Ascii.eqb_refl. by rewrite parseIPv4_IPString.
Qed.

Lemma To4_v4 a b c d : To4 (v4InV6Prefix ++ [a; b; c; d]) = [a; b; c; d].
Proof.
  unfold To4. cbn [v4InV6Prefix app length Nat.eqb take drop andb].
  by rewrite bool_decide_eq_true_2.
Qed.

Lemma PutUint32_range v :
  exists a b c d, PutUint32 v = [a; b; c; d] /\
    0 <= a < 256 /\ 0 <= b < 256 /\ 0 <= c < 256 /\ 0 <= d < 256.
Proof.
  rewrite PutUint32_bytes. do 4 eexists. split; [done|].
  repeat split; apply Z.mod_pos_bound; lia.
Qed.

(** The four bytes [ParseIP] and [To4] give for the text of [v] decode to
    [v]. *)
Lemma Uint32_ParseIP_ipText v :
  0 <= v < 2 ^ 32 -> Uint32 (To4 (ParseIP parseIPv6 (ipText v))) = Returns v.
Proof.
  intros Hv. unfold ipText, ParseIP.
  destruct (PutUint32_range v) as (a & b & c & d & E & ? & ? & ? & ?).
  rewrite E, ParseAddr_IPString by done. cbn [As16].
  rewrite To4_v4, <- E, <- (app_nil_r (PutUint32 v)).
  by apply Uint32_PutUint32.
Qed.

Lemma dotted_ipText v : dotted (ipText v) = true.
Proof.
  unfold ipText. destruct (PutUint32_range v) as (a & b & c & d & E & ? & ? & ? & ?).
  rewrite E. by apply dotted_IPString.
Qed.

End ReadBack.

(** ** The two loops *)

Lemma wrap32_small i : 0 <= i < 2 ^ 32 -> wrap32 i = i.
Proof. intros. unfold wrap32. by apply Z.mod_small. Qed.

(** [cidrLoop] stops after [end_ - i] rounds. *)
Lemma cidrLoop_returns (len : nat) : forall fuel i acc,
  0 <= i -> i + Z.of_nat len < 2 ^ 32 -> (len < fuel)%nat ->
  cidrLoop fuel i (i + Z.of_nat len) acc
  = Returns (acc ++ (ipText <$> seqZ i (Z.of_nat len))).
Proof.
  induction len as [|len IH]; intros fuel i acc Hi Hend Hfuel.
  - destruct fuel as [|fuel]; [lia|]. cbn [cidrLoop].
    replace (i <? i + Z.of_nat 0) with false by (symmetry; apply Z.ltb_ge; lia).
    by rewrite app_nil_r.
  - destruct fuel as [|fuel]; [lia|]. cbn [cidrLoop].
    replace (i <? i + Z.of_nat (S len)) with true by (symmetry; apply Z.ltb_lt; lia).
    rewrite wrap32_small by lia.
    replace (i + Z.of_nat (S len)) with (i + 1 + Z.of_nat len) by lia.
    rewrite IH by lia.
    rewrite (seqZ_cons i) by lia. cbn [fmap list_fmap].
    rewrite <- app_assoc. cbn [app].
    replace (Z.succ i) with (i + 1) by lia.
    replace (Z.pred (Z.of_nat (S len))) with (Z.of_nat len) by lia.
    done.
Qed.

(** [blockLoop] stops after [end_ - i + 1] rounds when [end_] is not the
    largest [uint32]. *)
Lemma blockLoop_returns (len : nat) : forall fuel i acc,
  0 <= i -> i + Z.of_nat len < 2 ^ 32 -> (len < fuel)%nat ->
  blockLoop fuel i (i + Z.of_nat len - 1) acc
  = Returns (acc ++ (ipText <$> seqZ i (Z.of_nat len))).
Proof.
  induction len as [|len IH]; intros fuel i acc Hi Hend Hfuel.
  - destruct fuel as [|fuel]; [lia|]. cbn [blockLoop].
    replace (i <=? i + Z.of_nat 0 - 1) with false by (symmetry; apply Z.leb_gt; lia).
    by rewrite app_nil_r.
  - destruct fuel as [|fuel]; [lia|]. cbn [blockLoop].
    replace (i <=? i + Z.of_nat (S len) - 1) with true by (symmetry; apply Z.leb_le; lia).
    rewrite wrap32_small by lia.
    replace (i + Z.of_nat (S len) - 1) with (i + 1 + Z.of_nat len - 1) by lia.
    rewrite IH by lia.
    rewrite (seqZ_cons i) by lia. cbn [fmap list_fmap].
    rewrite <- app_assoc. cbn [app].
    replace (Z.succ i) with (i + 1) by lia.
    replace (Z.pred (Z.of_nat (S len))) with (Z.of_nat len) by lia.
    done.
Qed.

(** With the largest [uint32] as its end, [blockLoop] never stops: [i <= end]
    holds for every [uint32] and [i++] wraps around. *)
Lemma blockLoop_max_diverges (fuel : nat) : forall i acc,
  0 <= i < 2 ^ 32 -> blockLoop fuel i 4294967295 acc = OutOfFuel.
Proof.
  induction fuel as [|fuel IH]; intros i acc Hi; [done|].
  cbn [blockLoop].
  replace (i <=? 4294967295) with true by (symmetry; apply Z.leb_le; lia).
  apply IH. unfold wrap32. apply Z.mod_pos_bound. lia.
Qed.

(** ** Network masks *)

(** A property checked on every prefix length. *)
Lemma prefix_cases (f : Z -> bool) :
  forallb f (seqZ 0 33) = true -> forall n, 0 <= n <= 32 -> f n = true.
Proof.
  intros Hall n Hn. rewrite forallb_forall in Hall.
  apply Hall, list_elem_of_In, elem_of_seqZ. lia.
Qed.

Lemma CIDRMask_maskWord n : 0 <= n <= 32 -> CIDRMask n 32 = PutUint32 (maskWord n).
Proof.
  intros Hn.
  apply (bool_decide_eq_true_1 (CIDRMask n 32 = PutUint32 (maskWord n))).
  revert n Hn. apply prefix_cases. by vm_compute.
Qed.

Lemma lxor_maskWord n : 0 <= n <= 32 -> Z.lxor (maskWord n) 4294967295 = 2 ^ (32 - n) - 1.
Proof.
  intros Hn. apply Z.eqb_eq. revert n Hn. apply prefix_cases. by vm_compute.
Qed.

Lemma maskWord_range n : 0 <= n <= 32 -> 0 <= maskWord n < 2 ^ 32.
Proof.
  intros Hn. unfold maskWord.
  assert (0 < 2 ^ (32 - n)) by (apply Z.pow_pos_nonneg; lia).
  assert (2 ^ (32 - n) <= 2 ^ 32) by (apply Z.pow_le_mono_r; lia).
  lia.
Qed.

Lemma dtoi_appendDecimal n :
  0 <= n <= 32 ->
  dtoi (appendDecimal n) = (n, Z.of_nat (String.length (appendDecimal n)), true).
Proof.
  intros Hn.
  apply (bool_decide_eq_true_1
           (dtoi (appendDecimal n) = (n, Z.of_nat (String.length (appendDecimal n)), true))).
  revert n Hn. apply prefix_cases. by vm_compute.
Qed.

(** Masking a word keeps its bits from [32 - n] up. *)
Lemma land_maskWord ip n :
  0 <= ip < 2 ^ 32 -> 0 <= n <= 32 ->
  Z.land ip (maskWord n) = ip - ip mod 2 ^ (32 - n).
Proof.
  intros Hip Hn. set (k := 32 - n).
  assert (maskWord n = Z.shiftl (Z.ones n) k) as ->.
  { unfold maskWord. rewrite Z.shiftl_mul_pow2, Z.ones_equiv by lia.
    replace 32 with (n + k) at 1 by lia. rewrite Z.pow_add_r by lia. fold k. lia. }
  assert (ip - ip mod 2 ^ k = Z.shiftl (Z.shiftr ip k) k) as ->.
  { rewrite Z.shiftl_mul_pow2, Z.shiftr_div_pow2 by lia.
    assert (0 < 2 ^ k) by (apply Z.pow_pos_nonneg; lia).
    rewrite (Z.div_mod ip (2 ^ k)) at 1 by lia. lia. }
  apply Z.bits_inj'. intros j Hj.
  rewrite Z.land_spec, !Z.shiftl_spec by done.
  destruct (Z.lt_ge_cases j k).
  - rewrite !(Z.testbit_neg_r _ (j - k)) by lia. apply andb_false_r.
  - rewrite Z.shiftr_spec by lia. replace (j - k + k) with j by lia.
    destruct (Z.lt_ge_cases j 32).
    + rewrite Z.ones_spec_low by lia. apply andb_true_r.
    + rewrite (testbit_small ip 32 j) by done. done.
Qed.

(** What [parseCIDRNetwork] computes from the network address and the
    mask: the broadcast address. *)
Lemma broadcast_maskWord ip n :
  0 <= ip < 2 ^ 32 -> 0 <= n <= 32 ->
  let start := Z.land ip (maskWord n) in
  Z.lor (Z.land start (maskWord n)) (Z.lxor (maskWord n) 4294967295)
  = start + (2 ^ (32 - n) - 1).
Proof.
  intros Hip Hn start. subst start.
  rewrite <- Z.land_assoc, Z.land_diag, lxor_maskWord by done.
  rewrite land_maskWord by done.
  set (k := 32 - n).
  assert (0 < 2 ^ k) by (apply Z.pow_pos_nonneg; lia).
  assert (ip - ip mod 2 ^ k = ip / 2 ^ k * 2 ^ k) as -> by (rewrite (Z.div_mod ip (2 ^ k)) at 1 by lia; lia).
  rewrite Z.lor_comm, <- Z.shiftl_mul_pow2 by lia.
  rewrite lor_shiftl_add by lia.
  rewrite Z.shiftl_mul_pow2 by lia. lia.
Qed.

(** [zip_with Z.land] on the bytes is [Z.land] on the words. *)
Lemma Uint32_land a b c d m0 m1 m2 m3 :
  0 <= a < 256 -> 0 <= b < 256 -> 0 <= c < 256 -> 0 <= d < 256 ->
  0 <= m0 < 256 -> 0 <= m1 < 256 -> 0 <= m2 < 256 -> 0 <= m3 < 256 ->
  Uint32 (zip_with Z.land [a; b; c; d] [m0; m1; m2; m3])
  = Returns (Z.land (be32 a b c d) (be32 m0 m1 m2 m3)).
Proof.
  intros Ha Hb Hc Hd H0 H1 H2 H3.
  pose proof (Uint32_be32 a b c d [] Ha Hb Hc Hd) as Eip.
  pose proof (Uint32_be32 m0 m1 m2 m3 [] H0 H1 H2 H3) as Em.
  unfold Uint32 in Eip, Em. injection Eip as <-. injection Em as <-.
  cbn [zip_with Uint32]. f_equal.
  assert (forall x j, 0 <= x < 256 -> j < 0 \/ 8 <= j -> Z.testbit x j = false) as Hout.
  { intros x j Hx [Hj|Hj]; [by apply Z.testbit_neg_r|].
    apply (testbit_small x 8 j); [lia|done]. }
  apply Z.bits_inj'. intros j Hj.
  rewrite ?Z.land_spec, ?Z.lor_spec, ?Z.shiftl_spec, ?Z.land_spec by done.
  destruct (Z.lt_ge_cases j 8); [|destruct (Z.lt_ge_cases j 16); [|destruct (Z.lt_ge_cases j 24)]];
    repeat match goal with
    | |- context [Z.testbit ?x ?i] =>
        rewrite (Hout x i) by (first [assumption | lia])
    end;
    repeat match goal with
    | |- context [Z.testbit ?x ?i] => destruct (Z.testbit x i)
    end; reflexivity.
Qed.

(** ** Expanding CIDR and block lines *)

Section ExpanderFacts.

Variable parseIPv6 : string -> option (list Z).

Lemma IPMask_v4 a b c d m0 m1 m2 m3 :
  IPMask (As16 (Addr4 [a; b; c; d])) [m0; m1; m2; m3]
  = zip_with Z.land [a; b; c; d] [m0; m1; m2; m3].
Proof.
  unfold IPMask. cbn [As16 v4InV6Prefix app length Nat.eqb andb take drop].
  by rewrite bool_decide_eq_true_2.
Qed.

Lemma ParseCIDR_cidrLine a b c d n :
  0 <= a < 256 -> 0 <= b < 256 -> 0 <= c < 256 -> 0 <= d < 256 -> 0 <= n <= 32 ->
  ParseCIDR parseIPv6 (cidrLine a b c d n)
  = Some {| IP := zip_with Z.land [a; b; c; d] (PutUint32 (maskWord n));
            Mask := PutUint32 (maskWord n) |}.
Proof.
  intros Ha Hb Hc Hd Hn. unfold ParseCIDR, cidrLine.
  change ("/" +:+ appendDecimal n) with (String "/" (appendDecimal n)).
  rewrite cut_app_sep
    by (apply Contains_dotted; [by apply dotted_IPString | done | done]).
  rewrite ParseAddr_IPString, dtoi_appendDecimal by done.
  rewrite Z.eqb_refl. cbn [negb orb BitLen].
  replace (n <? 0) with false by (symmetry; apply Z.ltb_ge; lia).
  replace (32 <? n) with false by (symmetry; apply Z.ltb_ge; lia).
  cbn [orb]. rewrite CIDRMask_maskWord by done.
  destruct (PutUint32_range (maskWord n)) as (m0 & m1 & m2 & m3 & E & _).
  rewrite E. by rewrite IPMask_v4.
Qed.

(** [parseCIDRNetwork] on ["a.b.c.d/n"]: the addresses from the network
    address up to the one before the broadcast address. *)
Lemma parseCIDRNetwork_cidrLine a b c d n fuel :
  0 <= a < 256 -> 0 <= b < 256 -> 0 <= c < 256 -> 0 <= d < 256 -> 0 <= n <= 32 ->
  2 ^ (32 - n) <= Z.of_nat fuel ->
  let ip := be32 a b c d in
  let network := ip - ip mod 2 ^ (32 - n) in
  parseCIDRNetwork parseIPv6 fuel (cidrLine a b c d n)
  = Returns (ipText <$> seqZ network (2 ^ (32 - n) - 1), None).
Proof.
  intros Ha Hb Hc Hd Hn Hfuel ip network. unfold parseCIDRNetwork.
  rewrite ParseCIDR_cidrLine by done. cbn [Mask IP].
  pose proof (maskWord_range n Hn) as HM.
  pose proof (be32_range a b c d Ha Hb Hc Hd) as Hip. fold ip in Hip.
  rewrite <- (app_nil_r (PutUint32 (maskWord n))) at 1.
  rewrite Uint32_PutUint32 by done. cbn [mbind outcome_bind obind].
  destruct (PutUint32_range (maskWord n)) as (m0 & m1 & m2 & m3 & E & ? & ? & ? & ?).
  rewrite E, Uint32_land by done. cbn [mbind outcome_bind obind].
  assert (be32 m0 m1 m2 m3 = maskWord n) as EM.
  { pose proof (Uint32_PutUint32 (maskWord n) [] HM) as EU.
    rewrite app_nil_r, E, Uint32_be32 in EU by done. by injection EU. }
  rewrite EM. fold ip.
  pose proof (broadcast_maskWord ip n Hip Hn) as Hend. cbv zeta in Hend.
  rewrite Hend. rewrite land_maskWord by done. fold network.
  set (k := 32 - n) in *.
  assert (0 < 2 ^ k) by (apply Z.pow_pos_nonneg; lia).
  assert (2 ^ n * 2 ^ k = 2 ^ 32) as Hpow.
  { rewrite <- Z.pow_add_r by lia. f_equal. lia. }
  assert (network = ip / 2 ^ k * 2 ^ k) as Hnet.
  { unfold network. rewrite (Z.div_mod ip (2 ^ k)) at 1 by lia. lia. }
  assert (0 <= ip / 2 ^ k < 2 ^ n) as Hq.
  { split; [apply Z.div_pos; lia|].
    apply Z.div_lt_upper_bound; [lia|]. rewrite Z.mul_comm. lia. }
  assert (0 <= network /\ network + 2 ^ k <= 2 ^ 32) as [Hn0 Hn1].
  { rewrite Hnet. split; [nia|]. rewrite <- Hpow. nia. }
  replace (2 ^ k - 1) with (Z.of_nat (Z.to_nat (2 ^ k - 1))) by lia.
  rewrite cidrLoop_returns by lia.
  done.
Qed.

Lemma Contains_cidrLine a b c d n : Contains (cidrLine a b c d n) "/" = true.
Proof.
  unfold cidrLine. rewrite Contains_app.
  change ("/" +:+ appendDecimal n) with (String "/" (appendDecimal n)).
  cbn [Contains]. rewrite Ascii.eqb_refl. apply orb_true_r.
Qed.

Lemma parseAddresses_cidrLine a b c d n fuel :
  0 <= a < 256 -> 0 <= b < 256 -> 0 <= c < 256 -> 0 <= d < 256 -> 0 <= n <= 32 ->
  2 ^ (32 - n) <= Z.of_nat fuel ->
  let ip := be32 a b c d in
  let network := ip - ip mod 2 ^ (32 - n) in
  parseAddresses parseIPv6 fuel (cidrLine a b c d n)
  = Returns (ipText <$> seqZ network (2 ^ (32 - n) - 1), []).
Proof.
  intros Ha Hb Hc Hd Hn Hfuel ip network. unfold parseAddresses.
  rewrite Contains_cidrLine.
  pose proof (parseCIDRNetwork_cidrLine a b c d n fuel Ha Hb Hc Hd Hn Hfuel) as E.
  cbv zeta in E. fold ip network in E. by rewrite E.
Qed.

(** [parseNetworkBlock] on ["start-end"] when [end] is not the largest
    address. *)
Lemma Split_blockLine start end_ :
  Split (blockLine start end_) "-" = [ipText start; ipText end_].
Proof.
  unfold blockLine.
  change ("-" +:+ ipText end_) with (String "-" (ipText end_)).
  rewrite Split_app_sep by (apply Contains_dotted; [apply dotted_ipText | done | done]).
  rewrite Split_not_Contains by (apply Contains_dotted; [apply dotted_ipText | done | done]).
  done.
Qed.

Lemma TrimSpace_blockLine start end_ :
  TrimSpace (blockLine start end_) = blockLine start end_.
Proof.
  apply TrimSpace_allPlain. unfold blockLine. rewrite !allPlain_app.
  rewrite (dotted_allPlain (ipText start)), (dotted_allPlain (ipText end_))
    by apply dotted_ipText.
  done.
Qed.

Lemma Contains_blockLine start end_ :
  Contains (blockLine start end_) "/" = false /\
  Contains (blockLine start end_) "-" = true.
Proof.
  unfold blockLine. rewrite !Contains_app.
  rewrite !(Contains_dotted (ipText _) "/") by (apply dotted_ipText || done).
  split; [done|]. apply orb_true_iff. right.
  change ("-" +:+ ipText end_) with (String "-" (ipText end_)).
  cbn [Contains]. by rewrite Ascii.eqb_refl.
Qed.

Lemma parseNetworkBlock_blockLine start end_ fuel :
  0 <= start < 2 ^ 32 -> 0 <= end_ < 2 ^ 32 ->
  parseNetworkBlock parseIPv6 fuel (blockLine start end_)
  = (addresses ← blockLoop fuel start end_ []; Returns (addresses, None)).
Proof.
  intros Hs He. unfold parseNetworkBlock.
  rewrite TrimSpace_blockLine, Split_blockLine.
  rewrite !Uint32_ParseIP_ipText by done. done.
Qed.

Lemma parseAddresses_blockLine start end_ fuel :
  0 <= start -> start <= end_ -> end_ < 2 ^ 32 - 1 ->
  end_ - start + 1 < Z.of_nat fuel ->
  parseAddresses parseIPv6 fuel (blockLine start end_)
  = Returns (ipText <$> seqZ start (end_ - start + 1), []).
Proof.
  intros Hs Hle He Hfuel. unfold parseAddresses.
  destruct (Contains_blockLine start end_) as [-> ->].
  rewrite parseNetworkBlock_blockLine by lia.
  replace end_ with (start + Z.of_nat (Z.to_nat (end_ - start + 1)) - 1) at 1 by lia.
  rewrite blockLoop_returns by lia.
  replace (Z.of_nat (Z.to_nat (end_ - start + 1))) with (end_ - start + 1) by lia.
  done.
Qed.

(** A block that ends at 255.255.255.255 is never expanded. *)
Lemma parseAddresses_blockLine_max start fuel :
  0 <= start < 2 ^ 32 ->
  parseAddresses parseIPv6 fuel (blockLine start 4294967295) = OutOfFuel.
Proof.
  intros Hs. unfold parseAddresses.
  destruct (Contains_blockLine start 4294967295) as [-> ->].
  rewrite parseNetworkBlock_blockLine by lia.
  by rewrite blockLoop_max_diverges.
Qed.

End ExpanderFacts.

(** ** The address expander: the claims *)

Example expand_cidr_30 p :
  parseAddresses p 4 "10.0.0.0/30" = Returns (["10.0.0.0"; "10.0.0.1"; "10.0.0.2"], []).
Proof. reflexivity. Qed.

Example expand_block_3 p :
  parseAddresses p 4 "10.0.0.1-10.0.0.3" = Returns (["10.0.0.1"; "10.0.0.2"; "10.0.0.3"], []).
Proof. reflexivity. Qed.

(** C1, as amended: for every line ["a.b.c.d/n"] (bytes [a], [b], [c], [d]
    and a prefix length [n] up to 32, in decimal) the expander returns, given
    enough fuel, exactly the [2^(32-n) - 1] addresses from the network address
    on, in ascending order and without the broadcast address, and logs
    nothing; the first of them is the network address when [n < 32], and when
    [n = 32] there is none. *)
Theorem C1_cidr_expansion p a b c d n fuel :
  0 <= a < 256 -> 0 <= b < 256 -> 0 <= c < 256 -> 0 <= d < 256 -> 0 <= n <= 32 ->
  2 ^ (32 - n) <= Z.of_nat fuel ->
  let ip := be32 a b c d in
  let network := ip - ip mod 2 ^ (32 - n) in
  exists l,
    parseAddresses p fuel (cidrLine a b c d n) = Returns (l, [])
    /\ l = ipText <$> seqZ network (2 ^ (32 - n) - 1)
    /\ Z.of_nat (length l) = 2 ^ (32 - n) - 1
    /\ (n < 32 -> head l = Some (ipText network))
    /\ (n = 32 -> l = []).
Proof.
  intros Ha Hb Hc Hd Hn Hfuel ip network.
  exists (ipText <$> seqZ network (2 ^ (32 - n) - 1)).
  assert (0 < 2 ^ (32 - n)) by (apply Z.pow_pos_nonneg; lia).
  split; [by apply parseAddresses_cidrLine|]. split; [done|].
  split; [rewrite length_fmap, length_seqZ; lia|]. split.
  - intros Hlt.
    assert (2 <= 2 ^ (32 - n)).
    { change 2 with (2 ^ 1) at 1. apply Z.pow_le_mono_r; lia. }
    rewrite seqZ_cons by lia. done.
  - intros ->. done.
Qed.

Lemma C1_cidr_expansion_witness :
  exists l,
    parseAddresses (fun _ => None) 4 "10.0.0.0/30" = Returns (l, [])
    /\ l = ["10.0.0.0"; "10.0.0.1"; "10.0.0.2"]
    /\ Z.of_nat (length l) = 3
    /\ head l = Some "10.0.0.0".
Proof.
  destruct (C1_cidr_expansion (fun _ => None) 10 0 0 0 30 4)
    as (l & E & El & Hlen & Hhd & _); [lia..| vm_compute; discriminate |].
  exists l. split; [exact E|]. split; [exact El|]. split; [exact Hlen|].
  apply Hhd. lia.
Defined.

(** C1 as stated fails on a /32: nothing is emitted, so the network address
    is not the first element. *)
Lemma C1_counterexample :
  ~ (exists p fuel l log,
       parseAddresses p fuel "10.0.0.1/32" = Returns (l, log)
       /\ head l = Some "10.0.0.1").
Proof.
  intros (p & fuel & l & log & E & Hhd).
  destruct fuel as [|fuel]; [vm_compute in E; discriminate|].
  change "10.0.0.1/32" with (cidrLine 10 0 0 1 32) in E.
  rewrite parseAddresses_cidrLine in E by (lia || (change (2 ^ (32 - 32)) with 1; lia)).
  change (2 ^ (32 - 32) - 1) with 0 in E. cbn [seqZ] in E.
  injection E as <- _. discriminate.
Qed.

(** C2, as amended.  A line with a slash that [net.ParseCIDR] rejects gives
    no address and one logged warning, and the lines after it are expanded
    as usual.  A line without slash but with a dash whose split on the dash
    does not give exactly two fields makes [parseNetworkBlock] panic, and
    with it the whole expansion: the lines after it are not read. *)
Theorem C2_malformed_lines p fuel :
  (forall line,
     Contains line "/" = true -> ParseCIDR p line = None ->
     parseAddresses p fuel line = Returns ([], [skipMessage line])
     /\ forall lines addresses stderr,
          expandLines p fuel (line :: lines) addresses stderr
          = expandLines p fuel lines addresses (stderr ++ [skipMessage line]))
  /\
  (forall line,
     Contains line "/" = false -> Contains line "-" = true ->
     length (Split (TrimSpace line) "-") <> 2%nat ->
     parseAddresses p fuel line = Panics blockPanic
     /\ forall lines addresses stderr,
          expandLines p fuel (line :: lines) addresses stderr = Panics blockPanic).
Proof.
  split.
  - intros line Hslash Hbad.
    assert (parseAddresses p fuel line = Returns ([], [skipMessage line])) as E.
    { unfold parseAddresses, parseCIDRNetwork. by rewrite Hslash, Hbad. }
    split; [done|]. intros lines addresses stderr.
    cbn [expandLines]. rewrite E. cbn [mbind outcome_bind obind].
    by rewrite app_nil_r.
  - intros line Hslash Hdash Hlen.
    assert (parseAddresses p fuel line = Panics blockPanic) as E.
    { unfold parseAddresses, parseNetworkBlock. rewrite Hslash, Hdash.
      destruct (Split (TrimSpace line) "-") as [|e0 [|e1 [|e2 es]]]; done. }
    split; [done|]. intros lines addresses stderr.
    cbn [expandLines]. by rewrite E.
Qed.

Lemma C2_malformed_lines_witness :
  (parseAddresses (fun _ => None) 4 "10.0.0.0/33"
   = Returns ([], [skipMessage "10.0.0.0/33"])
   /\ expandLines (fun _ => None) 4 ["10.0.0.0/33"; "10.0.0.9"] [] []
      = Returns (["10.0.0.9"], [skipMessage "10.0.0.0/33"]))
  /\
  (parseAddresses (fun _ => None) 4 "10.0.0.1-10.0.0.2-10.0.0.3" = Panics blockPanic
   /\ expandLines (fun _ => None) 4 ["10.0.0.1-10.0.0.2-10.0.0.3"; "10.0.0.9"] [] []
      = Panics blockPanic).
Proof.
  destruct (C2_malformed_lines (fun _ => None) 4) as [Hcidr Hblock].
  split.
  - destruct (Hcidr "10.0.0.0/33") as [E Hnext]; [reflexivity..|].
    split; [exact E|]. rewrite Hnext. reflexivity.
  - destruct (Hblock "10.0.0.1-10.0.0.2-10.0.0.3") as [E Hnext];
      [reflexivity | reflexivity | vm_compute; lia |].
    split; [exact E|]. apply Hnext.
Defined.

(** A block with two fields of which one is no address panics as well, in
    [binary.BigEndian.Uint32] on the nil slice [To4] returns: so does the
    spaced block of the README. *)
Example spaced_block_panics p fuel :
  parseAddresses p fuel "192.168.0.1 -   192.168.0.255"
  = Panics "runtime error: index out of range [3]".
Proof. reflexivity. Qed.

(** C2 as stated fails on a malformed block: the expander does not return
    zero addresses, it panics. *)
Lemma C2_counterexample :
  ~ (exists p fuel log,
       parseAddresses p fuel "10.0.0.1-10.0.0.2-10.0.0.3" = Returns ([], log)).
Proof. intros (p & fuel & log & E). vm_compute in E. discriminate. Qed.

(** C3: a block line that ends at 255.255.255.255 is never expanded,
    whatever its start: with every amount of fuel [parseAddresses] is still in
    the loop of [parseNetworkBlock].  ([i <= end] holds for every [uint32]
    [i], and [i++] wraps around to 0.) *)
Theorem C3_block_to_max_diverges p fuel start :
  0 <= start < 2 ^ 32 ->
  parseAddresses p fuel (blockLine start 4294967295) = OutOfFuel.
Proof. apply parseAddresses_blockLine_max. Qed.

Lemma C3_block_to_max_diverges_witness :
  parseAddresses (fun _ => None) 1000 "255.255.255.255-255.255.255.255" = OutOfFuel.
Proof.
  change "255.255.255.255-255.255.255.255" with (blockLine 4294967295 4294967295).
  apply (C3_block_to_max_diverges (fun _ => None) 1000 4294967295). lia.
Defined.

(** The loop of [parseCIDRNetwork] stops for every start and end. *)
Lemma cidrLoop_terminates i end_ acc :
  0 <= i < 2 ^ 32 -> 0 <= end_ < 2 ^ 32 ->
  exists fuel r, cidrLoop fuel i end_ acc = Returns r.
Proof.
  intros Hi He. destruct (Z.le_gt_cases i end_).
  - set (len := Z.to_nat (end_ - i)).
    exists (S len). eexists.
    replace end_ with (i + Z.of_nat len) by lia.
    apply cidrLoop_returns; lia.
  - exists 1%nat, acc. cbn [cidrLoop].
    by replace (i <? end_) with false by (symmetry; apply Z.ltb_ge; lia).
Qed.

(** C5 on the block from 255.255.255.0 to 255.255.255.255, whose ends parse
    and are in order: no amount of fuel gives the 256 addresses. *)
Theorem C5_last_block_diverges p fuel :
  parseAddresses p fuel "255.255.255.0-255.255.255.255" = OutOfFuel.
Proof.
  change "255.255.255.0-255.255.255.255" with (blockLine 4294967040 4294967295).
  apply parseAddresses_blockLine_max. lia.
Qed.

(** Below 255.255.255.255 the block is expanded as C5 says: [end - start + 1]
    addresses, both ends among them. *)
Lemma block_expansion p start end_ fuel :
  0 <= start -> start <= end_ -> end_ < 2 ^ 32 - 1 ->
  end_ - start + 1 < Z.of_nat fuel ->
  exists l,
    parseAddresses p fuel (blockLine start end_) = Returns (l, [])
    /\ Z.of_nat (length l) = end_ - start + 1
    /\ head l = Some (ipText start)
    /\ list.last l = Some (ipText end_).
Proof.
  intros Hs Hle He Hfuel.
  exists (ipText <$> seqZ start (end_ - start + 1)).
  split; [by apply parseAddresses_blockLine|].
  split; [rewrite length_fmap, length_seqZ; lia|].
  split; [by rewrite seqZ_cons by lia|].
  rewrite (seqZ_app start (end_ - start) 1), fmap_app by lia.
  change (seqZ (start + (end_ - start)) 1) with [0 + (start + (end_ - start))].
  cbn [fmap list_fmap]. rewrite list.last_snoc. do 2 f_equal. lia.
Qed.

(** C6, as amended: an empty line is taken as a single address, the empty
    text, and becomes one more target. *)
Theorem C6_empty_line p fuel :
  parseAddresses p fuel "" = Returns ([""], [])
  /\ forall lines addresses stderr,
       expandLines p fuel ("" :: lines) addresses stderr
       = expandLines p fuel lines (addresses ++ [""]) stderr.
Proof.
  split; [done|]. intros lines addresses stderr.
  cbn [expandLines]. change (parseAddresses p fuel "") with (@Returns (list string * list string) ([""], [])).
  cbn [mbind outcome_bind obind]. by rewrite app_nil_r.
Qed.

(** C6 as stated fails: the empty line gives one address, not none. *)
Lemma C6_counterexample :
  ~ (exists p fuel log, parseAddresses p fuel "" = Returns ([], log)).
Proof. intros (p & fuel & log & E). vm_compute in E. discriminate. Qed.

(** A file that ends in a newline has an empty last line, hence the empty
    text as its last address. *)
Example file_trailing_newline p :
  getAddressesFromFile p 4 (Some ("10.0.0.1" +:+ String newline ""))
  = Returns (["10.0.0.1"; ""], None, []).
Proof. reflexivity. Qed.

(** ** Accepted status codes *)

Lemma lookupCode_insert m code code' :
  lookupCode (<[code := true]> m) code'
  = if decide (code = code') then true else lookupCode m code'.
Proof.
  unfold lookupCode. rewrite lookup_insert. by destruct (decide (code = code')).
Qed.

Lemma lookupCode_foldl (toks : list string) : forall (m : gmap Z bool) code,
  lookupCode
    (foldl (fun m strCode =>
              match Atoi strCode with Some c => <[c := true]> m | None => m end)
           m toks) code = true
  <-> lookupCode m code = true \/ exists tok, tok ∈ toks /\ Atoi tok = Some code.
Proof.
  induction toks as [|tok toks IH]; intros m code; cbn [foldl].
  - split; [by left|]. intros [H|(tok & Hin & _)]; [done|]. by apply elem_of_nil in Hin.
  - rewrite IH. split.
    + intros [H|(tok' & Hin & Htok)].
      * destruct (Atoi tok) as [c|] eqn:E; [|by left].
        rewrite lookupCode_insert in H. destruct (decide (c = code)) as [->|].
        -- right. exists tok. split; [left|done].
        -- by left.
      * right. exists tok'. split; [by right|done].
    + intros [H|(tok' & Hin & Htok)].
      * left. destruct (Atoi tok) as [c|]; [|done].
        rewrite lookupCode_insert. by destruct (decide (c = code)).
      * apply elem_of_cons in Hin as [->|Hin].
        -- left. rewrite Htok, lookupCode_insert. by rewrite decide_True.
        -- right. by exists tok'.
Qed.

(** C10: after the loop of [main] over the comma-separated status codes, a
    code is accepted exactly when some field of the text reads as that
    integer with [strconv.Atoi]; the fields that do not read as an integer
    add nothing and stop nothing. *)
Theorem C10_status_code_list (validStatusCodes : string) (code : Z) :
  lookupCode (parseValidStatusCodes validStatusCodes ∅) code = true
  <-> exists strCode,
        strCode ∈ Split validStatusCodes "," /\ Atoi strCode = Some code.
Proof.
  unfold parseValidStatusCodes. rewrite lookupCode_foldl.
  split; [|by right]. intros [H|H]; [|done].
  unfold lookupCode in H. by rewrite lookup_empty in H.
Qed.

Example status_codes_with_malformed_field :
  let m := parseValidStatusCodes "404,4o3, 500,,502" ∅ in
  lookupCode m 404 = true /\ lookupCode m 502 = true
  /\ lookupCode m 403 = false /\ lookupCode m 500 = false.
Proof. vm_compute. done. Qed.

(** ** The status check of [doRequest] *)

Section ProbeFacts.

Variable URLString : URL -> string.
Variable NewRequestOk : string -> string -> bool.

(** The check passes exactly for a status below 300 or in the list. *)
Lemma doRequest_status_check ValidStatusCodes method u vhost cookieString statusCode body :
  NewRequestOk method u = true ->
  (doRequest NewRequestOk ValidStatusCodes method u vhost cookieString
     (fun _ => Responds statusCode (Some body))).2 = None
  <-> statusCode < 300 \/ lookupCode ValidStatusCodes statusCode = true.
Proof.
  intros Hok. unfold doRequest. rewrite Hok. cbn [negb].
  destruct (Z.leb_spec 300 statusCode); cbn [andb].
  - destruct (lookupCode ValidStatusCodes statusCode); cbn [negb snd].
    + split; [by right|done].
    + split; [done|]. intros [?|?]; [lia|done].
  - cbn [snd]. split; [by left|done].
Qed.

(** C4 on a response with status 101 and an empty list of accepted codes:
    [doRequest] returns the body and no error, so the probe counts as a
    success, although 101 is neither a 2xx code nor in the list. *)
Theorem C4_status_101_accepted method u vhost cookieString body :
  NewRequestOk method u = true ->
  (doRequest NewRequestOk ∅ method u vhost cookieString
     (fun _ => Responds 101 (Some body))).2 = None
  /\ (doRequest NewRequestOk ∅ method u vhost cookieString
        (fun _ => Responds 101 (Some body))).1.2 = body.
Proof. intros Hok. unfold doRequest. by rewrite Hok. Qed.

(** The two 404 scenarios of C4. *)
Lemma doRequest_404 method u vhost cookieString body :
  NewRequestOk method u = true ->
  (doRequest NewRequestOk {[404 := true]} method u vhost cookieString
     (fun _ => Responds 404 (Some body))).2 = None
  /\ (doRequest NewRequestOk ∅ method u vhost cookieString
        (fun _ => Responds 404 (Some body))).2 = Some (ErrStatus 404).
Proof. intros Hok. unfold doRequest. by rewrite Hok. Qed.

End ProbeFacts.

Lemma C4_status_101_accepted_witness :
  (doRequest (fun _ _ => true) ∅ "GET" "https://10.0.0.1/" "example.com" ""
     (fun _ => Responds 101 (Some "upgrade"))).2 = None
  /\ (doRequest (fun _ _ => true) ∅ "GET" "https://10.0.0.1/" "example.com" ""
        (fun _ => Responds 101 (Some "upgrade"))).1.2 = "upgrade".
Proof.
  apply (C4_status_101_accepted (fun _ _ => true) "GET" "https://10.0.0.1/"
           "example.com" "" "upgrade").
  reflexivity.
Defined.

(** ** The run of the probes *)

(** ** The run of the probes *)

Section RunFacts.

Variable URLString : URL -> string.
Variable NewRequestOk : string -> string -> bool.
Variable ValidStatusCodes : gmap Z bool.
Variable originalBody : string.
Variable comparator : string -> string -> Q.
Variable cookieString : string.
Variable u0 : URL.
Variable addresses : list string.

Lemma doRequest_sent method u vhost cookie Client_Do req body err :
  doRequest NewRequestOk ValidStatusCodes method u vhost cookie Client_Do
  = (Some req, body, err) ->
  RawURL req = u /\ ReqHost req = vhost.
Proof.
  unfold doRequest. destruct (NewRequestOk method u); cbn [negb]; [|done].
  destruct (Client_Do _) as [e|statusCode [b|]];
    repeat case_match; intros [= <- _ _]; done.
Qed.

Lemma gstep_goroutineOk g g' out :
  gstep URLString NewRequestOk ValidStatusCodes originalBody comparator cookieString g g' out ->
  goroutineOk URLString u0 g -> goroutineOk URLString u0 g'.
Proof.
  intros Hstep [Hpc Hsent].
  inversion Hstep as [g1 Epc|g1 Epc|g1 Client_Do sent body err Epc Edo|g1 body e Epc Eres|g1 body Epc Eres];
    subst; unfold goroutineOk in *; rewrite Epc in Hpc; cbn in *.
  - by rewrite Hpc.
  - destruct Hpc as [-> ->]. done.
  - destruct Hpc as [Hu Hv]. split; [done|].
    intros req ->. apply doRequest_sent in Edo. by rewrite Hu, Hv in Edo.
  - done.
  - done.
Qed.

Lemma gstep_printedBy g g' out :
  gstep URLString NewRequestOk ValidStatusCodes originalBody comparator cookieString g g' out ->
  printedBy originalBody comparator g' = printedBy originalBody comparator g ++ out.
Proof.
  intros Hstep.
  inversion Hstep as [g1 Epc|g1 Epc|g1 Client_Do sent body err Epc Edo|g1 body e Epc Eres|g1 body Epc Eres];
    subst; unfold printedBy; rewrite Epc; cbn; [done..| |]; by rewrite Eres.
Qed.

Lemma gstep_address g g' out :
  gstep URLString NewRequestOk ValidStatusCodes originalBody comparator cookieString g g' out ->
  g_address g' = g_address g.
Proof. by intros []. Qed.

Lemma step_worldOk w w' :
  step URLString NewRequestOk ValidStatusCodes originalBody comparator cookieString w w' ->
  worldOk URLString originalBody comparator u0 addresses w -> worldOk URLString originalBody comparator u0 addresses w'.
Proof.
  intros Hstep (Hu & Hgs & Haddr & Herr & Hout).
  destruct Hstep as [w address rest Hpend|w gs1 g gs2 g' out Egs Hg];
    unfold worldOk; cbn.
  - split; [done|]. split.
    { apply Forall_app. split; [done|]. apply Forall_singleton.
      split; [done|]. done. }
    split.
    { rewrite fmap_app, <- app_assoc. cbn. by rewrite <- Hpend. }
    split; [done|].
    rewrite fmap_app, concat_app. cbn. by rewrite !app_nil_r.
  - rewrite Egs in Hgs, Haddr, Hout.
    apply Forall_app in Hgs as [Hgs1 [Hg0 Hgs2]%Forall_cons_1].
    split; [done|]. split.
    { apply Forall_app. split; [done|]. constructor; [|done].
      by eapply gstep_goroutineOk. }
    split.
    { rewrite fmap_app, fmap_cons in Haddr |- *.
      by rewrite (gstep_address _ _ _ Hg). }
    split; [done|].
    rewrite fmap_app, fmap_cons, concat_app, concat_cons in Hout |- *.
    rewrite (gstep_printedBy _ _ _ Hg), Hout.
    rewrite <- !(assoc_L (++)). do 2 f_equiv. apply Permutation_app_comm.
Qed.

Lemma reachable_worldOk w : reachable URLString NewRequestOk ValidStatusCodes originalBody comparator
    cookieString u0 addresses w -> worldOk URLString originalBody comparator u0 addresses w.
Proof.
  unfold reachable. revert w. apply rtc_ind_r.
  - unfold worldOk, initial. cbn. done.
  - intros w w' _ Hstep IH. by eapply step_worldOk.
Qed.




End RunFacts.

Section RunClaims.

Variable URLString : URL -> string.
Variable NewRequestOk : string -> string -> bool.
Variable ValidStatusCodes : gmap Z bool.
Variable originalBody : string.
Variable comparator : string -> string -> Q.
Variable cookieString : string.
Variable u0 : URL.
Variable addresses : list string.


End RunClaims.



(** C9 on a candidate that answers with status 101 while no status code is
    accepted besides 2xx: its [doRequest] returns the body and no error, and
    the run of that one probe ends with its line on the standard output. *)
Theorem C9_status_101_is_printed URLString NewRequestOk originalBody comparator
    cookieString u0 address body :
  NewRequestOk "GET" (URLString (setHost address u0)) = true ->
  exists w g,
    reachable URLString NewRequestOk ∅ originalBody comparator cookieString
      u0 [address] w
    /\ finished w /\ w_gs w = [g] /\ g_address g = address
    /\ doRequest NewRequestOk ∅ "GET" (URLString (setHost address u0)) (Host u0)
         cookieString (fun _ => Responds 101 (Some body))
       = (g_sent g, body, None)
    /\ g_result g = Some (body, None)
    /\ w_stdout w = [(address, comparator body originalBody)].
Proof.
  intros Hok.
  destruct (doRequest NewRequestOk ∅ "GET" (URLString (setHost address u0)) (Host u0)
              cookieString (fun _ => Responds 101 (Some body)))
    as [[sent b] err] eqn:Edo.
  assert (b = body /\ err = None) as [-> ->].
  { unfold doRequest in Edo. rewrite Hok in Edo. cbn in Edo. by injection Edo as _ <- <-. }
  eexists _, _. split.
  { unfold reachable.
    eapply rtc_l; [by eapply step_go|]. cbn.
    eapply rtc_l; [eapply (step_goroutine _ _ _ _ _ _ _ []); [done|by eapply gstep_vhost]|]. cbn.
    eapply rtc_l; [eapply (step_goroutine _ _ _ _ _ _ _ []); [done|by eapply gstep_host]|]. cbn.
    eapply rtc_l;
      [eapply (step_goroutine _ _ _ _ _ _ _ []);
         [done|eapply (gstep_request _ _ _ _ _ _ _ (fun _ => Responds 101 (Some body)));
               [done|exact Edo]]|].
    cbn.
    eapply rtc_l; [eapply (step_goroutine _ _ _ _ _ _ _ []); [done|by eapply gstep_print]|]. cbn.
    apply rtc_refl. }
  split; [split; [done|by repeat constructor]|].
  split; [reflexivity|]. done.
Qed.

Lemma C9_status_101_is_printed_witness :
  exists w g,
    reachable demoURLString (fun _ _ => true) ∅ "original" (fun _ _ => 1%Q) ""
      demoURL ["10.0.0.1"] w
    /\ finished w /\ w_gs w = [g] /\ g_address g = "10.0.0.1"
    /\ doRequest (fun _ _ => true) ∅ "GET" "https://10.0.0.1/" "example.com" ""
         (fun _ => Responds 101 (Some "upgrade"))
       = (g_sent g, "upgrade", None)
    /\ g_result g = Some ("upgrade", None)
    /\ w_stdout w = [("10.0.0.1", 1%Q)].
Proof.
  apply (C9_status_101_is_printed demoURLString (fun _ _ => true) "original"
           (fun _ _ => 1%Q) "" demoURL "10.0.0.1" "upgrade").
  reflexivity.
Defined.

(** * Further properties of the code *)

(** ** Blocks ([parseNetworkBlock], [parseAddresses]) *)

Lemma block_expansion_witness :
  exists l,
    parseAddresses (fun _ => None) 4 "10.0.0.1-10.0.0.3" = Returns (l, [])
    /\ Z.of_nat (length l) = 3
    /\ head l = Some "10.0.0.1"
    /\ list.last l = Some "10.0.0.3".
Proof.
  destruct (block_expansion (fun _ => None) 167772161 167772163 4)
    as (l & E & Hlen & Hhd & Hlast); [lia..|].
  exists l. split; [exact E|]. split; [exact Hlen|]. split; [exact Hhd | exact Hlast].
Defined.

(** A block whose end is below its start gives no address and no warning:
    the loop is not entered. *)
Theorem block_reversed_empty p start end_ fuel :
  0 <= end_ -> end_ < start -> start < 2 ^ 32 -> (0 < fuel)%nat ->
  parseAddresses p fuel (blockLine start end_) = Returns ([], []).
Proof.
  intros He Hlt Hs Hfuel. unfold parseAddresses.
  destruct (Contains_blockLine start end_) as [-> ->].
  rewrite parseNetworkBlock_blockLine by lia.
  destruct fuel as [|fuel]; [lia|]. cbn [blockLoop].
  by replace (start <=? end_) with false by (symmetry; apply Z.leb_gt; lia).
Qed.

Lemma block_reversed_empty_witness :
  parseAddresses (fun _ => None) 1 "10.0.0.3-10.0.0.1" = Returns ([], []).
Proof.
  change "10.0.0.3-10.0.0.1" with (blockLine 167772163 167772161).
  apply (block_reversed_empty (fun _ => None) 167772163 167772161 1); lia.
Defined.

Lemma trimLeft_blank b l :
  forallb asciiSpace b = true -> trimLeft (b ++ l) = trimLeft l.
Proof.
  induction b as [|c b IH]; cbn [forallb app]; [done|].
  intros [Hc Hb]%andb_true_iff. cbn [trimLeft]. rewrite Hc. by apply IH.
Qed.

Lemma trimLeftRev_blank b l :
  forallb asciiSpace b = true -> trimLeftRev (b ++ l) = trimLeftRev l.
Proof.
  induction b as [|c b IH]; cbn [forallb app]; [done|].
  intros [Hc Hb]%andb_true_iff. cbn [trimLeftRev]. rewrite Hc. by apply IH.
Qed.

Lemma trimLeft_allBlank b : forallb asciiSpace b = true -> trimLeft b = [].
Proof. intros Hb. rewrite <- (app_nil_r b). by rewrite trimLeft_blank. Qed.

Lemma forallb_rev {A} (f : A -> bool) l : forallb f (rev l) = forallb f l.
Proof.
  induction l as [|x l IH]; [done|]. cbn [rev forallb].
  rewrite forallb_app, IH. cbn [forallb]. rewrite andb_true_r. apply andb_comm.
Qed.

(** [TrimSpace] takes ASCII white space off both ends of a text that has
    none inside. *)
Lemma TrimSpace_padded ws1 s ws2 :
  allBlank ws1 = true -> allBlank ws2 = true -> allPlain s = true ->
  TrimSpace (ws1 +:+ s +:+ ws2) = s.
Proof.
  unfold allBlank, allPlain, TrimSpace. intros H1 H2 Hs.
  rewrite !list_ascii_of_string_app, trimLeft_blank by done.
  rewrite <- (string_of_list_ascii_of_string s) at 2. f_equal.
  destruct (list_ascii_of_string s) as [|c l] eqn:El.
  - cbn [app]. by rewrite trimLeft_allBlank.
  - rewrite forallb_forall in Hs. cbn [app].
    rewrite trimLeft_plain by (apply Hs; by left).
    change (c :: l ++ list_ascii_of_string ws2) with ((c :: l) ++ list_ascii_of_string ws2).
    rewrite rev_app_distr, trimLeftRev_blank by (by rewrite forallb_rev).
    destruct (rev (c :: l)) as [|c' l'] eqn:Er.
    { apply (f_equal (@length _)) in Er. rewrite length_rev in Er. done. }
    rewrite trimLeftRev_plain.
    + rewrite <- Er. apply rev_involutive.
    + apply Hs. apply in_rev. rewrite Er. by left.
Qed.

Lemma Contains_allBlank ws sep :
  allBlank ws = true -> asciiSpace sep = false -> Contains ws sep = false.
Proof.
  unfold allBlank. intros Hws Hsep.
  induction ws as [|c ws IH]; cbn [Contains list_ascii_of_string forallb] in *; [done|].
  apply andb_true_iff in Hws as [Hc Hws].
  destruct (Ascii.eqb c sep) eqn:E; [|by apply IH].
  apply Ascii.eqb_eq in E. subst. congruence.
Qed.

Lemma allPlain_blockLine start end_ : allPlain (blockLine start end_) = true.
Proof.
  unfold blockLine. rewrite !allPlain_app.
  rewrite (dotted_allPlain (ipText start)), (dotted_allPlain (ipText end_))
    by apply dotted_ipText.
  done.
Qed.

(** ASCII white space before and after a block changes nothing:
    [parseNetworkBlock] trims its argument. *)
Theorem block_outer_space_ignored p fuel ws1 start end_ ws2 :
  allBlank ws1 = true -> allBlank ws2 = true ->
  parseAddresses p fuel (ws1 +:+ blockLine start end_ +:+ ws2)
  = parseAddresses p fuel (blockLine start end_).
Proof.
  intros H1 H2. unfold parseAddresses, parseNetworkBlock.
  rewrite !Contains_app.
  destruct (Contains_blockLine start end_) as [-> ->].
  rewrite !(Contains_allBlank ws1), !(Contains_allBlank ws2) by done.
  cbn [orb].
  rewrite TrimSpace_padded by (done || apply allPlain_blockLine).
  rewrite TrimSpace_blockLine, Split_blockLine.
  destruct (Uint32 (To4 (ParseIP p (ipText start)))) as [v0| |]; [|done..].
  cbn [mbind outcome_bind obind].
  destruct (Uint32 (To4 (ParseIP p (ipText end_)))) as [v1| |]; [|done..].
  cbn [mbind outcome_bind obind].
  destruct (blockLoop fuel v0 v1 []) as [addresses| |]; done.
Qed.

Lemma block_outer_space_ignored_witness :
  parseAddresses (fun _ => None) 4 "  10.0.0.1-10.0.0.3 "
  = parseAddresses (fun _ => None) 4 "10.0.0.1-10.0.0.3".
Proof.
  change "  10.0.0.1-10.0.0.3 " with ("  " +:+ blockLine 167772161 167772163 +:+ " ").
  change "10.0.0.1-10.0.0.3" with (blockLine 167772161 167772163).
  apply (block_outer_space_ignored (fun _ => None) 4 "  " 167772161 167772163 " ");
    reflexivity.
Defined.

Lemma Uint32_outcome b :
  (exists v, Uint32 b = Returns v)
  \/ Uint32 b = Panics "runtime error: index out of range [3]".
Proof. destruct b as [|b0 [|b1 [|b2 [|b3 rest]]]]; cbn; eauto. Qed.

Lemma To4_nil : To4 [] = [].
Proof. reflexivity. Qed.

(** A line taken as a block, with two fields of which one is no address,
    is not skipped: [net.ParseIP] gives nil and [binary.BigEndian.Uint32]
    panics on it. *)
Theorem block_bad_endpoint_panics p fuel line edge0 edge1 :
  Contains line "/" = false -> Contains line "-" = true ->
  Split (TrimSpace line) "-" = [edge0; edge1] ->
  ParseAddr p edge0 = None \/ ParseAddr p edge1 = None ->
  parseAddresses p fuel line = Panics "runtime error: index out of range [3]".
Proof.
  intros Hslash Hdash Hsplit Hbad. unfold parseAddresses, parseNetworkBlock.
  rewrite Hslash, Hdash, Hsplit.
  destruct (Uint32_outcome (To4 (ParseIP p edge0))) as [[v E0]|E0]; rewrite E0; [|done].
  destruct Hbad as [Hbad|Hbad].
  - unfold ParseIP in E0. rewrite Hbad in E0. done.
  - unfold ParseIP at 1. rewrite Hbad. done.
Qed.

Lemma block_bad_endpoint_panics_witness :
  parseAddresses (fun _ => None) 4 "10.0.0.1-10.0.0.x"
  = Panics "runtime error: index out of range [3]".
Proof.
  apply (block_bad_endpoint_panics (fun _ => None) 4 "10.0.0.1-10.0.0.x"
           "10.0.0.1" "10.0.0.x"); [reflexivity..|].
  right. reflexivity.
Defined.

(** The only warning [parseAddresses] ever logs is for a line with a slash
    that [net.ParseCIDR] rejects, and then it returns no address: a block is
    never skipped with a warning. *)
Theorem warning_only_for_bad_cidr p fuel line l log :
  parseAddresses p fuel line = Returns (l, log) -> log <> [] ->
  Contains line "/" = true /\ ParseCIDR p line = None
  /\ l = [] /\ log = [skipMessage line].
Proof.
  unfold parseAddresses, parseCIDRNetwork, parseNetworkBlock.
  destruct (Contains line "/").
  - destruct (ParseCIDR p line) as [net|].
    + destruct (Uint32 (Mask net)) as [mask| |]; [|done..]. cbn [mbind outcome_bind obind].
      destruct (Uint32 (IP net)) as [start| |]; [|done..]. cbn [mbind outcome_bind obind].
      destruct (cidrLoop _ _ _ _) as [addresses| |]; [|done..].
      cbn. intros [= <- <-]. done.
    + cbn. intros [= <- <-] _. done.
  - destruct (Contains line "-").
    + destruct (Split (TrimSpace line) "-") as [|e0 [|e1 [|e2 es]]]; [done..| |done].
      destruct (Uint32 (To4 (ParseIP p e0))) as [start| |]; [|done..].
      cbn [mbind outcome_bind obind].
      destruct (Uint32 (To4 (ParseIP p e1))) as [end_| |]; [|done..].
      cbn [mbind outcome_bind obind].
      destruct (blockLoop _ _ _ _) as [addresses| |]; [|done..].
      cbn. intros [= <- <-]. done.
    + cbn. intros [= <- <-]. done.
Qed.

Lemma warning_only_for_bad_cidr_witness :
  Contains "10.0.0.0/33" "/" = true /\ ParseCIDR (fun _ => None) "10.0.0.0/33" = None
  /\ @nil string = [] /\ [skipMessage "10.0.0.0/33"] = [skipMessage "10.0.0.0/33"].
Proof.
  apply (warning_only_for_bad_cidr (fun _ => None) 1 "10.0.0.0/33" []
           [skipMessage "10.0.0.0/33"]); [reflexivity | discriminate].
Defined.

(** ** Lines that are not blocks never panic and always end *)

Lemma lt_pow2_log2 k x : 0 <= k -> 0 <= x -> (x < 2 ^ k <-> x = 0 \/ Z.log2 x < k).
Proof.
  intros Hk Hx. destruct (Z.eq_dec x 0) as [->|Hne].
  - split; [by left|]. intros _. by apply Z.pow_pos_nonneg.
  - rewrite Z.log2_lt_pow2 by lia. split; [by right|]. by intros [?|?].
Qed.

Lemma land_below k a b : 0 <= k -> 0 <= a < 2 ^ k -> 0 <= b -> 0 <= Z.land a b < 2 ^ k.
Proof.
  intros Hk [Ha0 Ha] Hb.
  assert (0 <= Z.land a b) as H0 by (apply Z.land_nonneg; by left).
  split; [done|]. apply lt_pow2_log2; [done..|].
  destruct (Z.eq_dec (Z.land a b) 0) as [?|Hne]; [by left|right].
  destruct (proj1 (lt_pow2_log2 k a Hk Ha0) Ha) as [->|Ha'].
  { by rewrite Z.land_0_l in Hne. }
  pose proof (Z.log2_land a b Ha0 Hb). lia.
Qed.

Lemma lor_below k a b : 0 <= k -> 0 <= a < 2 ^ k -> 0 <= b < 2 ^ k -> 0 <= Z.lor a b < 2 ^ k.
Proof.
  intros Hk [Ha0 Ha] [Hb0 Hb].
  assert (0 <= Z.lor a b) as H0 by (by apply Z.lor_nonneg).
  split; [done|]. apply lt_pow2_log2; [done..|].
  destruct (Z.eq_dec (Z.lor a b) 0) as [?|Hne]; [by left|right].
  rewrite Z.log2_lor by done.
  assert (0 < k).
  { destruct (Z.eq_dec k 0) as [->|]; [|lia].
    assert (a = 0) as -> by (cbn in Ha; lia). assert (b = 0) as -> by (cbn in Hb; lia).
    done. }
  destruct (proj1 (lt_pow2_log2 k a Hk Ha0) Ha) as [->|Ha'];
    destruct (proj1 (lt_pow2_log2 k b Hk Hb0) Hb) as [->|Hb'];
    rewrite ?(Z.log2_nonpos 0) by lia; lia.
Qed.

Lemma lxor_below k a b : 0 <= k -> 0 <= a < 2 ^ k -> 0 <= b < 2 ^ k -> 0 <= Z.lxor a b < 2 ^ k.
Proof.
  intros Hk [Ha0 Ha] [Hb0 Hb].
  assert (0 <= Z.lxor a b) as H0 by (by apply Z.lxor_nonneg).
  split; [done|]. apply lt_pow2_log2; [done..|].
  destruct (Z.eq_dec (Z.lxor a b) 0) as [?|Hne]; [by left|right].
  pose proof (Z.log2_lxor a b Ha0 Hb0) as Hlog.
  assert (0 < k).
  { destruct (Z.eq_dec k 0) as [->|]; [|lia].
    assert (a = 0) as -> by (cbn in Ha; lia). assert (b = 0) as -> by (cbn in Hb; lia).
    done. }
  destruct (proj1 (lt_pow2_log2 k a Hk Ha0) Ha) as [->|Ha'];
    destruct (proj1 (lt_pow2_log2 k b Hk Hb0) Hb) as [->|Hb'];
    rewrite ?(Z.log2_nonpos 0) in Hlog by lia; lia.
Qed.

Lemma Uint32_bytes l :
  (4 <= length l)%nat -> Forall isByte l -> exists v, Uint32 l = Returns v /\ isU32 v.
Proof.
  intros Hlen Hl. destruct l as [|b0 [|b1 [|b2 [|b3 rest]]]]; cbn in Hlen; try lia.
  apply Forall_cons_1 in Hl as [H0 Hl]. apply Forall_cons_1 in Hl as [H1 Hl].
  apply Forall_cons_1 in Hl as [H2 Hl]. apply Forall_cons_1 in Hl as [H3 Hl].
  exists (be32 b0 b1 b2 b3). split; [by apply Uint32_be32|by apply be32_range].
Qed.

(** What [parseIPv4Fields] accepts has four fields, each a byte. *)
Lemma parseIPv4Fields_bytes s : forall first prevDot val digLen fields r,
  Forall isByte fields -> 0 <= val <= 255 -> (length fields <= 3)%nat ->
  parseIPv4Fields s first prevDot val digLen fields = Some r ->
  length r = 4%nat /\ Forall isByte r.
Proof.
  induction s as [|c s IH]; intros first prevDot val digLen fields r Hf Hval Hlen;
    cbn [parseIPv4Fields].
  - destruct (Nat.ltb_spec (length fields) 3); [done|]. intros [= <-].
    split; [rewrite length_app; cbn; lia|].
    apply Forall_app. split; [done|]. apply Forall_singleton. unfold isByte. lia.
  - destruct (isDigit c) eqn:Hc.
    + destruct ((digLen =? 1) && (val =? 0)); [done|].
      destruct (Z.ltb_spec 255 (val * 10 + digitVal c)); [done|].
      apply IH; [done| |done].
      unfold isDigit in Hc. apply andb_true_iff in Hc as [Hc _].
      apply Z.leb_le in Hc. unfold digitVal in *. lia.
    + destruct (Ascii.eqb c "."); [|done].
      destruct (first || _ || prevDot); [done|].
      destruct (Nat.eqb_spec (length fields) 3); [done|].
      apply IH; [|lia|rewrite length_app; cbn; lia].
      apply Forall_app. split; [done|]. apply Forall_singleton. unfold isByte. lia.
Qed.

Lemma CIDRMask_bytes_ok l : forall n,
  0 <= n -> length (CIDRMask_bytes l n) = l /\ Forall isByte (CIDRMask_bytes l n).
Proof.
  induction l as [|l IH]; intros n Hn; cbn [CIDRMask_bytes]; [done|].
  destruct (Z.leb_spec 8 n).
  - destruct (IH (n - 8)) as [Hlen Hb]; [lia|]. cbn [length]. split; [by rewrite Hlen|].
    constructor; [unfold isByte; lia|done].
  - destruct (IH 0) as [Hlen Hb]; [lia|]. cbn [length]. split; [by rewrite Hlen|].
    constructor; [|done].
    assert (n = 0 \/ n = 1 \/ n = 2 \/ n = 3 \/ n = 4 \/ n = 5 \/ n = 6 \/ n = 7)
      as Hcases by lia.
    unfold isByte.
    destruct Hcases as [->|[->|[->|[->|[->|[->|[->| ->]]]]]]];
      vm_compute; (split; [discriminate | reflexivity]).
Qed.

Lemma zip_with_land_bytes ip mask :
  Forall isByte ip -> Forall isByte mask -> Forall isByte (zip_with Z.land ip mask).
Proof.
  intros Hip. revert mask. induction Hip as [|a ip Ha Hip IH]; intros mask Hm; [done|].
  destruct Hm as [|m mask Hm0 Hm]; [done|]. cbn [zip_with].
  constructor; [|by apply IH].
  unfold isByte in *. apply (land_below 8); lia.
Qed.

Lemma v4InV6Prefix_bytes : Forall isByte v4InV6Prefix.
Proof. unfold v4InV6Prefix, isByte. repeat constructor; lia. Qed.

(** The network [ParseCIDR] returns has an address and a mask of at least
    four bytes. *)
Lemma ParseCIDR_bytes p line net :
  sixteenBytes p -> ParseCIDR p line = Some net ->
  ((4 <= length (Mask net))%nat /\ Forall isByte (Mask net))
  /\ ((4 <= length (IP net))%nat /\ Forall isByte (IP net)).
Proof.
  intros Hp. unfold ParseCIDR.
  destruct (cut line "/") as [[addr mask]|]; [|done].
  destruct (ParseAddr p addr) as [ipAddr|] eqn:Eaddr; [|done].
  destruct (dtoi mask) as [[n i] ok].
  destruct (negb ok || negb (i =? Z.of_nat (String.length mask))) ; [done|]. cbn [orb].
  destruct (Z.ltb_spec n 0); [done|]. cbn [orb].
  destruct (Z.ltb_spec (BitLen ipAddr) n); [done|]. intros [= <-]. cbn [Mask IP].
  unfold ParseAddr in Eaddr. destruct (firstMark addr) as [c|]; [|done].
  destruct (Ascii.eqb c ".").
  - destruct (parseIPv4 addr) as [ip|] eqn:E4; [|done]. injection Eaddr as <-.
    apply parseIPv4Fields_bytes in E4 as [Hlen Hip]; [|done|lia|cbn; lia].
    cbn [BitLen] in *. unfold CIDRMask. change (Z.to_nat (32 / 8)) with 4%nat.
    destruct (CIDRMask_bytes_ok 4 n) as [Hml Hmb]; [done|].
    split; [split; [lia|done]|].
    destruct ip as [|a [|b [|c0 [|d [|]]]]]; try done.
    destruct (CIDRMask_bytes 4 n) as [|m0 [|m1 [|m2 [|m3 [|]]]]]; try done.
    rewrite IPMask_v4. split; [cbn; lia|]. by apply zip_with_land_bytes.
  - destruct (Ascii.eqb c ":"); [|done].
    destruct (p addr) as [ip|] eqn:E6; [|done]. injection Eaddr as <-.
    destruct (Hp addr ip E6) as [Hlen Hip].
    cbn [BitLen As16] in *. unfold CIDRMask. change (Z.to_nat (128 / 8)) with 16%nat.
    destruct (CIDRMask_bytes_ok 16 n) as [Hml Hmb]; [done|].
    split; [split; [lia|done]|].
    unfold IPMask. cbv zeta. rewrite ?Hml, ?Hlen. cbn [Nat.eqb andb].
    rewrite ?Hml, ?Hlen. cbn [Nat.eqb andb]. rewrite ?Hml, ?Hlen. cbn [Nat.eqb].
    split; [|by apply zip_with_land_bytes].
    rewrite length_zip_with. lia.
Qed.

(** A line with a slash, or without slash and dash, is never fatal: with
    enough fuel [parseAddresses] returns, whatever the text. *)
Theorem unblocked_line_returns p line :
  sixteenBytes p ->
  Contains line "/" = true \/ Contains line "-" = false ->
  exists fuel r, parseAddresses p fuel line = Returns r.
Proof.
  intros Hp Hline. unfold parseAddresses, parseCIDRNetwork.
  destruct (Contains line "/") eqn:Hslash.
  - destruct (ParseCIDR p line) as [net|] eqn:Enet.
    + destruct (ParseCIDR_bytes p line net Hp Enet) as [[Hml Hmb] [Hil Hib]].
      destruct (Uint32_bytes _ Hml Hmb) as (mask & -> & Hmask).
      destruct (Uint32_bytes _ Hil Hib) as (start & -> & Hstart).
      cbn [mbind outcome_bind obind].
      unfold isU32 in *.
      assert (0 <= Z.lor (Z.land start mask) (Z.lxor mask 4294967295) < 2 ^ 32) as Hend.
      { apply lor_below; [lia| |].
        - apply land_below; lia.
        - apply lxor_below; lia. }
      destruct (cidrLoop_terminates start _ [] Hstart Hend) as (fuel & r & E).
      exists fuel, (r, []). by rewrite E.
    + exists 0%nat. eexists. reflexivity.
  - destruct Hline as [? | ->]; [done|]. exists 0%nat. eexists. reflexivity.
Qed.

Lemma unblocked_line_returns_witness :
  exists fuel r, parseAddresses (fun _ => None) fuel "10.0.0.1-10.0.0.3/30" = Returns r.
Proof.
  apply (unblocked_line_returns (fun _ => None) "10.0.0.1-10.0.0.3/30").
  - intros s ip E. discriminate E.
  - left. reflexivity.
Defined.

(** ** More on the expansion of a range *)

(** The bits of the address below the prefix length do not matter: two
    CIDR lines with the same prefix length whose addresses agree above it
    expand to the same addresses. *)
Theorem cidr_host_bits_ignored p fuel a b c d a' b' c' d' n :
  isByte a -> isByte b -> isByte c -> isByte d ->
  isByte a' -> isByte b' -> isByte c' -> isByte d' ->
  0 <= n <= 32 -> 2 ^ (32 - n) <= Z.of_nat fuel ->
  be32 a b c d / 2 ^ (32 - n) = be32 a' b' c' d' / 2 ^ (32 - n) ->
  parseAddresses p fuel (cidrLine a b c d n)
  = parseAddresses p fuel (cidrLine a' b' c' d' n).
Proof.
  unfold isByte. intros Ha Hb Hc Hd Ha' Hb' Hc' Hd' Hn Hfuel Hsame.
  rewrite !parseAddresses_cidrLine by done.
  assert (0 < 2 ^ (32 - n)) by (apply Z.pow_pos_nonneg; lia).
  set (k := 32 - n) in *.
  assert (forall ip, ip - ip mod 2 ^ k = 2 ^ k * (ip / 2 ^ k)) as Hnet.
  { intros ip. rewrite Z.mod_eq by lia. lia. }
  by rewrite !Hnet, Hsame.
Qed.

Lemma cidr_host_bits_ignored_witness :
  parseAddresses (fun _ => None) 4 "10.0.0.6/30"
  = parseAddresses (fun _ => None) 4 "10.0.0.4/30".
Proof.
  change "10.0.0.6/30" with (cidrLine 10 0 0 6 30).
  change "10.0.0.4/30" with (cidrLine 10 0 0 4 30).
  apply (cidr_host_bits_ignored (fun _ => None) 4 10 0 0 6 10 0 0 4 30);
    unfold isByte; try lia; vm_compute; (reflexivity || discriminate).
Defined.

(** Whatever the loops return is the run of addresses from [i] on. *)
Lemma cidrLoop_inv fuel : forall i end_ acc r,
  isU32 i -> isU32 end_ ->
  cidrLoop fuel i end_ acc = Returns r ->
  r = acc ++ (ipText <$> seqZ i (end_ - i)).
Proof.
  unfold isU32. induction fuel as [|fuel IH]; intros i end_ acc r Hi He; [done|].
  cbn [cidrLoop]. destruct (Z.ltb_spec i end_).
  - rewrite wrap32_small by lia. intros E. apply IH in E; [|lia..].
    rewrite (seqZ_cons i) by lia. cbn [fmap list_fmap].
    rewrite E, <- app_assoc. cbn [app].
    replace (Z.succ i) with (i + 1) by lia.
    by replace (Z.pred (end_ - i)) with (end_ - (i + 1)) by lia.
  - intros [= <-]. rewrite seqZ_nil by lia. by rewrite app_nil_r.
Qed.

Lemma blockLoop_inv fuel : forall i end_ acc r,
  isU32 i -> isU32 end_ ->
  blockLoop fuel i end_ acc = Returns r ->
  r = acc ++ (ipText <$> seqZ i (end_ - i + 1)).
Proof.
  unfold isU32. induction fuel as [|fuel IH]; intros i end_ acc r Hi He; [done|].
  destruct (Z.eq_dec end_ 4294967295) as [->|Hmax].
  { rewrite blockLoop_max_diverges by done. done. }
  cbn [blockLoop]. destruct (Z.leb_spec i end_).
  - rewrite wrap32_small by lia. intros E. apply IH in E; [|lia..].
    rewrite (seqZ_cons i) by lia. cbn [fmap list_fmap].
    rewrite E, <- app_assoc. cbn [app].
    replace (Z.succ i) with (i + 1) by lia.
    by replace (Z.pred (end_ - i + 1)) with (end_ - (i + 1) + 1) by lia.
  - intros [= <-]. rewrite seqZ_nil by lia. by rewrite app_nil_r.
Qed.

(** Different addresses have different texts. *)
Lemma ipText_inj v w : isU32 v -> isU32 w -> ipText v = ipText w -> v = w.
Proof.
  intros Hv Hw E.
  pose proof (Uint32_ParseIP_ipText (fun _ => None) v Hv) as Ev.
  pose proof (Uint32_ParseIP_ipText (fun _ => None) w Hw) as Ew.
  rewrite E, Ew in Ev. by injection Ev.
Qed.

Lemma NoDup_ipText_seqZ i n :
  0 <= i -> i + n <= 2 ^ 32 -> NoDup (ipText <$> seqZ i n).
Proof.
  intros Hi Hn. apply NoDup_fmap_2_strong; [|apply NoDup_seqZ].
  intros x y Hx%elem_of_seqZ Hy%elem_of_seqZ. apply ipText_inj; unfold isU32; lia.
Qed.

(** No address is emitted twice: what either loop returns has no
    duplicates. *)
Theorem loops_emit_distinct fuel i end_ l :
  isU32 i -> isU32 end_ ->
  cidrLoop fuel i end_ [] = Returns l \/ blockLoop fuel i end_ [] = Returns l ->
  NoDup l.
Proof.
  intros Hi He [E|E].
  - apply cidrLoop_inv in E as ->; [|done..]. cbn [app].
    unfold isU32 in *. destruct (Z.le_gt_cases i end_).
    + apply NoDup_ipText_seqZ; lia.
    + rewrite seqZ_nil by lia. constructor.
  - destruct (Z.eq_dec end_ 4294967295) as [->|Hmax].
    { rewrite blockLoop_max_diverges in E by done. done. }
    apply blockLoop_inv in E as ->; [|done..]. cbn [app].
    unfold isU32 in *. destruct (Z.le_gt_cases i end_).
    + apply NoDup_ipText_seqZ; lia.
    + rewrite seqZ_nil by lia. constructor.
Qed.

Lemma loops_emit_distinct_witness : NoDup ["10.0.0.1"; "10.0.0.2"; "10.0.0.3"].
Proof.
  apply (loops_emit_distinct 4 167772161 167772163); unfold isU32; [lia..|].
  right. reflexivity.
Defined.

(** ** The lines of a file or of the standard input *)

Lemma expandLines_returns p fuel lines : forall rs addresses stderr,
  Forall2 (fun line r => parseAddresses p fuel line = Returns r) lines rs ->
  expandLines p fuel lines addresses stderr
  = Returns (addresses ++ concat (fst <$> rs), stderr ++ concat (snd <$> rs)).
Proof.
  induction lines as [|line lines IH]; intros rs addresses stderr Hall.
  - apply Forall2_nil_inv_l in Hall as ->. cbn. by rewrite !app_nil_r.
  - apply Forall2_cons_inv_l in Hall as ([l log] & rs' & E & Hall & ->).
    cbn [expandLines]. rewrite E. cbn [mbind outcome_bind obind].
    rewrite (IH rs') by done. cbn. by rewrite <- !app_assoc.
Qed.

(** The addresses read from the standard input or from a file are the
    expansions of the lines one after the other, in the order of the lines
    and with their repetitions, and so are the warnings. *)
Theorem addresses_are_concatenated p fuel lines rs :
  Forall2 (fun line r => parseAddresses p fuel line = Returns r) lines rs ->
  getAddressesFromStdin p fuel lines
  = Returns (concat (fst <$> rs), None, concat (snd <$> rs))
  /\ forall f, Split f newline = lines ->
       getAddressesFromFile p fuel (Some f)
       = Returns (concat (fst <$> rs), None, concat (snd <$> rs)).
Proof.
  intros Hall. split.
  - unfold getAddressesFromStdin. by rewrite (expandLines_returns _ _ _ rs).
  - intros f <-. unfold getAddressesFromFile.
    by rewrite (expandLines_returns _ _ _ rs).
Qed.

Lemma addresses_are_concatenated_witness :
  getAddressesFromStdin (fun _ => None) 4 ["10.0.0.8/31"; "10.0.0.1"; "10.0.0.1"]
  = Returns (["10.0.0.8"; "10.0.0.1"; "10.0.0.1"], None, []).
Proof.
  apply (addresses_are_concatenated (fun _ => None) 4
           ["10.0.0.8/31"; "10.0.0.1"; "10.0.0.1"]
           [(["10.0.0.8"], []); (["10.0.0.1"], []); (["10.0.0.1"], [])]).
  repeat constructor.
Defined.

(** A line that panics, or whose loop does not end, takes the whole reading
    with it: the addresses of the lines before it are lost and the lines
    after it are not read. *)
Theorem one_fatal_line_loses_all p fuel before line after rs :
  Forall2 (fun line r => parseAddresses p fuel line = Returns r) before rs ->
  (forall msg,
     parseAddresses p fuel line = Panics msg ->
     getAddressesFromStdin p fuel (before ++ line :: after) = Panics msg)
  /\ (parseAddresses p fuel line = OutOfFuel ->
      getAddressesFromStdin p fuel (before ++ line :: after) = OutOfFuel).
Proof.
  intros Hall.
  assert (forall addresses stderr,
            expandLines p fuel (before ++ line :: after) addresses stderr
            = expandLines p fuel (line :: after)
                (addresses ++ concat (fst <$> rs)) (stderr ++ concat (snd <$> rs))) as E.
  { revert rs Hall. induction before as [|l0 before IH]; intros rs Hall addresses stderr.
    - apply Forall2_nil_inv_l in Hall as ->. cbn [app fmap list_fmap concat].
      by rewrite !app_nil_r.
    - apply Forall2_cons_inv_l in Hall as ([l log] & rs' & E0 & Hall & ->).
      cbn [app expandLines]. rewrite E0. cbn [mbind outcome_bind obind].
      rewrite (IH rs') by done. cbn. by rewrite <- !app_assoc. }
  unfold getAddressesFromStdin. rewrite E. cbn [expandLines].
  split; [intros msg Hline|intros Hline]; by rewrite Hline.
Qed.

Lemma one_fatal_line_loses_all_witness :
  getAddressesFromStdin (fun _ => None) 4 ["10.0.0.1"; "10.0.0.1 - 10.0.0.3"; "10.0.0.9"]
  = Panics "runtime error: index out of range [3]".
Proof.
  destruct (one_fatal_line_loses_all (fun _ => None) 4 ["10.0.0.1"]
              "10.0.0.1 - 10.0.0.3" ["10.0.0.9"] [(["10.0.0.1"], [])]) as [E _].
  - repeat constructor.
  - apply E. reflexivity.
Defined.

(** ** [doRequest] *)

Lemma doRequest_status_check_witness :
  (doRequest (fun _ _ => true) {[403 := true]} "GET" "https://10.0.0.1/" "example.com" ""
     (fun _ => Responds 403 (Some "forbidden"))).2 = None
  <-> 403 < 300 \/ lookupCode {[403 := true]} 403 = true.
Proof.
  apply (doRequest_status_check (fun _ _ => true) {[403 := true]} "GET"
           "https://10.0.0.1/" "example.com" "" 403 "forbidden").
  reflexivity.
Defined.

(** [doRequest] returns a body without error only for a request it has
    sent, made from its arguments (the URL, the [Host] field, the user agent
    and, when there is one, the cookie), and answered with a body and a status
    below 300 or in the list; with an error the body it returns is empty. *)
Theorem doRequest_result NewRequestOk ValidStatusCodes method u vhost cookieString
    Client_Do sent body err :
  doRequest NewRequestOk ValidStatusCodes method u vhost cookieString Client_Do
  = (sent, body, err) ->
  match err with
  | None =>
      exists req statusCode,
        sent = Some req
        /\ Method req = method /\ RawURL req = u /\ ReqHost req = vhost
        /\ Header req
           = ("User-Agent", userAgent)
             :: (if String.eqb cookieString "" then [] else [("Cookie", cookieString)])
        /\ Client_Do req = Responds statusCode (Some body)
        /\ (statusCode < 300 \/ lookupCode ValidStatusCodes statusCode = true)
  | Some _ => body = ""
  end.
Proof.
  unfold doRequest. destruct (NewRequestOk method u); cbn [negb].
  2:{ by intros [= <- <- <-]. }
  set (req := {| Method := method; RawURL := u; ReqHost := vhost; Header := _ |}).
  destruct (Client_Do req) as [e|statusCode [b|]] eqn:Edo.
  - by intros [= <- <- <-].
  - destruct (Z.leb_spec 300 statusCode); cbn [andb].
    + destruct (lookupCode ValidStatusCodes statusCode) eqn:Ecode; cbn [negb].
      * intros [= <- <- <-]. exists req, statusCode.
        repeat split; try done; [|by right].
        subst req. cbn [Header]. by destruct cookieString.
      * by intros [= <- <- <-].
    + intros [= <- <- <-]. exists req, statusCode.
      repeat split; try done; [|by left].
      subst req. cbn [Header]. by destruct cookieString.
  - by destruct ((300 <=? statusCode) && _); intros [= <- <- <-].
Qed.

Lemma doRequest_result_witness :
  exists req statusCode,
    Some demoRequest = Some req
    /\ Method req = "GET" /\ RawURL req = "https://10.0.0.1/"
    /\ ReqHost req = "example.com"
    /\ Header req = [("User-Agent", userAgent)]
    /\ Responds 200 (Some "original") = Responds statusCode (Some "original")
    /\ (statusCode < 300 \/ lookupCode ∅ statusCode = true).
Proof.
  apply (doRequest_result (fun _ _ => true) ∅ "GET" "https://10.0.0.1/" "example.com" ""
           (fun _ => Responds 200 (Some "original")) (Some demoRequest) "original" None).
  reflexivity.
Defined.

(** ** The list of accepted status codes *)

Lemma Split_app s1 s2 sep :
  Split (s1 +:+ String sep s2) sep = Split s1 sep ++ Split s2 sep.
Proof.
  induction s1 as [|c s1 IH]; str_norm; cbn [Split].
  - by rewrite Ascii.eqb_refl.
  - rewrite IH. destruct (Ascii.eqb c sep); [done|].
    pose proof (length_Split s1 sep).
    destruct (Split s1 sep) as [|f fs]; [cbn in *; lia|done].
Qed.

(** The codes accepted for two lists joined by a comma are those accepted
    for the first together with those accepted for the second. *)
Theorem status_codes_union s1 s2 code :
  lookupCode (parseValidStatusCodes (s1 +:+ "," +:+ s2) ∅) code
  = lookupCode (parseValidStatusCodes s1 ∅) code
    || lookupCode (parseValidStatusCodes s2 ∅) code.
Proof.
  unfold parseValidStatusCodes.
  change ("," +:+ s2) with (String "," s2). rewrite Split_app, foldl_app.
  apply eq_true_iff_eq. rewrite orb_true_iff, !lookupCode_foldl.
  assert (lookupCode ∅ code = true <-> False) as Hempty.
  { unfold lookupCode. by rewrite lookup_empty. }
  rewrite Hempty. tauto.
Qed.

(** ** More on the run of the probes *)

Section RunMore.

Variable URLString : URL -> string.
Variable NewRequestOk : string -> string -> bool.
Variable ValidStatusCodes : gmap Z bool.
Variable originalBody : string.
Variable comparator : string -> string -> Q.
Variable cookieString : string.
Variable u0 : URL.
Variable addresses : list string.

(** A probe that succeeded is reported: once a goroutine has exited after a
    [doRequest] without error, its line is on the standard output. *)
Theorem success_is_printed w g checkedBody :
  reachable URLString NewRequestOk ValidStatusCodes originalBody comparator
    cookieString u0 addresses w ->
  g ∈ w_gs w -> g_pc g = Exited -> g_result g = Some (checkedBody, None) ->
  (g_address g, comparator checkedBody originalBody) ∈ w_stdout w.
Proof.
  intros (_ & _ & _ & _ & Hout)%reachable_worldOk Hin Hpc Hres.
  rewrite Hout. apply list_elem_of_In, in_concat.
  exists (printedBy originalBody comparator g). split.
  - apply list_elem_of_In. by apply list_elem_of_fmap_2.
  - unfold printedBy. rewrite Hpc, Hres. by left.
Qed.

Lemma length_printed gs :
  (length (concat (printedBy originalBody comparator <$> gs)) <= length gs)%nat.
Proof.
  induction gs as [|g gs IH]; [done|]. cbn. rewrite length_app.
  assert (length (printedBy originalBody comparator g) <= 1)%nat; [|lia].
  unfold printedBy. destruct (g_pc g); cbn; try lia.
  destruct (g_result g) as [[body [e|]]|]; cbn; lia.
Qed.

(** There is never more than one line for each address on the standard
    output. *)
Theorem at_most_one_line_per_address w :
  reachable URLString NewRequestOk ValidStatusCodes originalBody comparator
    cookieString u0 addresses w ->
  (length (w_stdout w) <= length addresses)%nat.
Proof.
  intros (_ & _ & Haddr & _ & Hout)%reachable_worldOk.
  rewrite Hout, <- Haddr, length_app, length_fmap.
  pose proof (length_printed (w_gs w)). lia.
Qed.

End RunMore.

Lemma demoPrinted_reachable :
  reachable demoURLString (fun _ _ => true) ∅ "original" (fun _ _ => 1%Q) ""
    demoURL ["10.0.0.1"] demoPrinted.
Proof.
  unfold reachable.
  eapply rtc_l; [by eapply step_go|]. cbn.
  eapply rtc_l; [eapply (step_goroutine _ _ _ _ _ _ _ []); [done|by eapply gstep_vhost]|]. cbn.
  eapply rtc_l; [eapply (step_goroutine _ _ _ _ _ _ _ []); [done|by eapply gstep_host]|]. cbn.
  eapply rtc_l;
    [eapply (step_goroutine _ _ _ _ _ _ _ []);
       [done|eapply (gstep_request _ _ _ _ _ _ _ (fun _ => Responds 200 (Some "original"))); done]|].
  cbn.
  eapply rtc_l; [eapply (step_goroutine _ _ _ _ _ _ _ []); [done|by eapply gstep_print]|]. cbn.
  apply rtc_refl.
Qed.

Lemma success_is_printed_witness : ("10.0.0.1", 1%Q) ∈ w_stdout demoPrinted.
Proof.
  apply (success_is_printed _ _ _ _ _ _ _ _ demoPrinted
           (List.hd (spawn demoURL "") (w_gs demoPrinted)) "original"
           demoPrinted_reachable); [by left|reflexivity..].
Defined.

Lemma at_most_one_line_per_address_witness :
  (length (w_stdout demoPrinted) <= length ["10.0.0.1"])%nat.
Proof.
  apply (at_most_one_line_per_address _ _ _ _ _ _ _ _ _ demoPrinted_reachable).
Defined.

(** ** Lines without slash and dash *)

(** Lines that have neither a slash nor a dash are not looked at any
    further: they come back as they are, one address each, in their order,
    whether or not they are addresses. *)
Theorem plain_lines_pass_through p fuel lines :
  Forall (fun line => Contains line "/" = false /\ Contains line "-" = false) lines ->
  getAddressesFromStdin p fuel lines = Returns (lines, None, []).
Proof.
  intros Hall.
  assert (Forall2 (fun line r => parseAddresses p fuel line = Returns r)
            lines ((fun line => ([line], [])) <$> lines)) as Hrs.
  { induction Hall as [|line lines [Hs Hd] Hall IH]; cbn; constructor; [|done].
    unfold parseAddresses. by rewrite Hs, Hd. }
  unfold getAddressesFromStdin. rewrite (expandLines_returns _ _ _ _ [] [] Hrs).
  cbn [mbind outcome_bind obind app]. do 2 f_equal.
  - f_equal. clear. induction lines as [|line lines IH]; [done|]. cbn. by rewrite IH.
  - clear. induction lines as [|line lines IH]; [done|]. cbn. by rewrite IH.
Qed.

Lemma plain_lines_pass_through_witness :
  getAddressesFromStdin (fun _ => None) 0 ["10.0.0.1"; "not an address"; "10.0.0.1"]
  = Returns (["10.0.0.1"; "not an address"; "10.0.0.1"], None, []).
Proof.
  apply (plain_lines_pass_through (fun _ => None) 0
           ["10.0.0.1"; "not an address"; "10.0.0.1"]).
  repeat constructor.
Defined.
